(** * notes: note codec, content fingerprint, metadata index, relation graph

    A shallow embedding of the core of the [notes] tool (Go):
    - the note model: [ParseNoteContent], [ToMarkdown], [ContentHash];
    - the metadata index [MetaFile]: [NeedsEnrichment], [UpdateFromNote],
      [UpdateFromNoteWithEnrichment], [AddRelation], [RemoveRelation],
      [Contains], [RemoveString];
    - [cmd_graph.go]: [buildGraph], [printTree], [showNeighborhood];
    - [cmd_sync.go]: [CmdSync] with [detectChanges] and [stringSliceEqual];
    - the helpers of the other commands: [generateFilename],
      [NormalizeFilename], [getSharedTags], [hasAnyTag], [parseCSV], the
      relation update of [CmdUpdate], the counting of [CmdTags], [CmdDiff]
      and [GetNotesNeedingEnrichment].

    Go strings are byte strings and are modelled by [string]; a slice of
    strings is a [list string] (the nil slice and the empty slice are both
    [[]]); the map [map[string]*FileMeta] is a [gmap string FileMeta.t]. *)

From Stdlib Require Import ZArith String Ascii List Lia Bool.
From stdpp Require Import gmap strings list.
Import ListNotations.

Set Warnings "-register-all".

Local Open Scope string_scope.
Local Open Scope Z_scope.

(** ** The functions of package [strings] the code calls *)

Module GoStrings.

(** [len(s)] *)
Definition len (s : string) : nat := String.length s.

(** [strings.HasPrefix(s, prefix)] *)
Fixpoint HasPrefix (s prefix : string) {struct prefix} : bool :=
  match prefix, s with
  | EmptyString, _ => true
  | String _ _, EmptyString => false
  | String c p', String d s' => if Ascii.eqb c d then HasPrefix s' p' else false
  end.

(** [s[n:]], for [n <= len(s)] *)
Fixpoint sliceFrom (n : nat) (s : string) : string :=
  match n, s with
  | O, _ => s
  | S n', String _ s' => sliceFrom n' s'
  | S _, EmptyString => EmptyString
  end.

(** [s[:n]], for [n <= len(s)] *)
Fixpoint sliceTo (n : nat) (s : string) : string :=
  match n, s with
  | O, _ => EmptyString
  | S n', String c s' => String c (sliceTo n' s')
  | S _, EmptyString => EmptyString
  end.

(** [strings.Index(s, substr)]: the first position at which [substr]
    occurs in [s]; [None] stands for Go's [-1]. *)
Fixpoint Index (s substr : string) : option nat :=
  if HasPrefix s substr then Some O
  else match s with
       | EmptyString => None
       | String _ s' => option_map S (Index s' substr)
       end.

(** [strings.HasSuffix(s, suffix)] *)
Definition HasSuffix (s suffix : string) : bool :=
  (len suffix <=? len s)%nat &&
  String.eqb (sliceFrom (len s - len suffix) s) suffix.

End GoStrings.
Import GoStrings.

(** ** Times *)

(** A [time.Time], represented by its civil fields in UTC. *)
Record Time := mkTime {
  year : Z; month : Z; day : Z; hour : Z; minute : Z; second : Z; nsec : Z
}.

(** [time.Time{}]: January 1, year 1, 00:00:00 UTC. *)
Definition zeroTime : Time := mkTime 1 1 1 0 0 0 0.

Definition digitChar (d : Z) : ascii := ascii_of_nat (48 + Z.to_nat d).

Definition pad2 (n : Z) : string :=
  String (digitChar (n / 10 mod 10)) (String (digitChar (n mod 10)) EmptyString).

Definition pad4 (n : Z) : string :=
  String (digitChar (n / 1000 mod 10)) (String (digitChar (n / 100 mod 10)) (pad2 n)).

(** [t.Format(noteTimeFormat)] with [noteTimeFormat = "2006-01-02 15:04"]:
    year, month, day, hour and minute, zero padded (years 0 to 9999);
    seconds and below are not printed. *)
Definition formatNoteTime (t : Time) : string :=
  pad4 (year t) ++ "-" ++ pad2 (month t) ++ "-" ++ pad2 (day t) ++ " " ++
  pad2 (hour t) ++ ":" ++ pad2 (minute t).

(** ** Notes *)

Module Frontmatter.
Record t := mk {
  Created : Time;
  Tags : list string;
  Summary : string;
  Related : list string
}.
(** [var fm Frontmatter] *)
Definition zero : t := mk zeroTime [] EmptyString [].
End Frontmatter.

Module Note.
Record t := mk {
  Filename : string;
  Frontmatter : Frontmatter.t;
  Content : string
}.
End Note.

(** What the code takes from outside this repository:
    - [Quote s] is [fmt.Sprintf("%q", s)];
    - [Unmarshal text] is [yaml.Unmarshal([]byte(text), &fm)] on a zero
      [Frontmatter], [None] when it returns an error;
    - [Base path] is [filepath.Base(path)]. *)
Class Env := {
  Quote : string -> string;
  Unmarshal : string -> option Frontmatter.t;
  Base : string -> string
}.

(** The result of [ParseNoteContent]: a note, or the error
    ["invalid frontmatter: ..."]. *)
Inductive parsed :=
| Parsed (n : Note.t)
| ParseError.

Definition LF : ascii := "010"%char.
Definition DQ : ascii := "034"%char.
Definition nl : string := String LF EmptyString.

(** The loop [for i, x := range items] of [ToMarkdown]. *)
Fixpoint writeItems (i : nat) (items : list string) : string :=
  match items with
  | [] => EmptyString
  | x :: rest =>
      (if (0 <? i)%nat then ", " else EmptyString) ++ x ++ writeItems (S i) rest
  end.

Definition writeSeq (key : string) (items : list string) : string :=
  match items with
  | [] => key ++ ": []" ++ nl
  | _ => key ++ ": [" ++ writeItems 0 items ++ "]" ++ nl
  end.

Definition writeSummary `{Env} (summary : string) : string :=
  if String.eqb summary EmptyString
  then "summary: " ++ String DQ (String DQ nl)
  else "summary: " ++ Quote summary ++ nl.

(** [ToMarkdown]: the writes to [buf], in order. *)
Definition ToMarkdown `{Env} (n : Note.t) : string :=
  let fm := Note.Frontmatter n in
  ("---" ++ nl) ++
  ("created: " ++ formatNoteTime (Frontmatter.Created fm) ++ nl) ++
  writeSeq "tags" (Frontmatter.Tags fm) ++
  writeSummary (Frontmatter.Summary fm) ++
  writeSeq "related" (Frontmatter.Related fm) ++
  ("---" ++ nl) ++
  Note.Content n.

(** [ParseNoteContent] *)
Definition ParseNoteContent `{Env} (filename : string) (data : string) : parsed :=
  let content := data in
  if negb (HasPrefix content ("---" ++ nl)) then
    Parsed (Note.mk filename Frontmatter.zero content)
  else
    let rest := sliceFrom 4 content in
    let decode (idx : nat) : parsed :=
      let fmContent := sliceTo idx rest in
      let body :=
        if (idx + 5 <? len rest)%nat then sliceFrom (idx + 5) rest
        else if HasSuffix rest (nl ++ "---") then EmptyString
        else EmptyString in
      match Unmarshal fmContent with
      | None => ParseError
      | Some fm => Parsed (Note.mk filename fm body)
      end in
    match Index rest (nl ++ "---" ++ nl) with
    | Some idx => decode idx
    | None =>
        if HasSuffix rest (nl ++ "---") then decode (len rest - 4)%nat
        else Parsed (Note.mk filename Frontmatter.zero content)
    end.

(** ** SHA-256 ([crypto/sha256]) and hexadecimal encoding ([encoding/hex]) *)

Module Sha256.

(** 32-bit words are integers in [[0, 2^32)]; every operation reduces
    modulo [2^32]. *)
Definition w32 (x : Z) : Z := x mod 4294967296.
Definition add32 (x y : Z) : Z := w32 (x + y).
Definition rotr (n x : Z) : Z :=
  Z.lor (Z.shiftr x n) (w32 (Z.shiftl x (32 - n))).
Definition not32 (x : Z) : Z := 4294967295 - x.

Definition Ch (x y z : Z) : Z := Z.lxor (Z.land x y) (Z.land (not32 x) z).
Definition Maj (x y z : Z) : Z :=
  Z.lxor (Z.lxor (Z.land x y) (Z.land x z)) (Z.land y z).
Definition Sigma0 (x : Z) : Z := Z.lxor (Z.lxor (rotr 2 x) (rotr 13 x)) (rotr 22 x).
Definition Sigma1 (x : Z) : Z := Z.lxor (Z.lxor (rotr 6 x) (rotr 11 x)) (rotr 25 x).
Definition sigma0 (x : Z) : Z := Z.lxor (Z.lxor (rotr 7 x) (rotr 18 x)) (Z.shiftr x 3).
Definition sigma1 (x : Z) : Z := Z.lxor (Z.lxor (rotr 17 x) (rotr 19 x)) (Z.shiftr x 10).

(** The primes below [n], in increasing order. *)
Definition primesBelow (n : nat) : list Z :=
  filter (fun p => forallb (fun d => negb (p mod d =? 0)) (map Z.of_nat (seq 2 (Z.to_nat p - 2))))
         (map Z.of_nat (seq 2 (n - 2))).

(** The greatest [r < 2^bits] with [fits r], for a downward closed [fits]. *)
Fixpoint searchRoot (fits : Z -> bool) (bits : nat) (r : Z) : Z :=
  match bits with
  | O => r
  | S bits' =>
      let r' := r + 2 ^ Z.of_nat bits' in
      searchRoot fits bits' (if fits r' then r' else r)
  end.

(** The first 32 bits of the fractional part of the cube root, and of the
    square root, of [p]. *)
Definition fracCbrt (p : Z) : Z :=
  w32 (searchRoot (fun r => r * r * r <=? p * 2 ^ 96) 40 0).

Definition fracSqrt (p : Z) : Z := w32 (Z.sqrt (p * 2 ^ 64)).

(** The round constants: from the cube roots of the first 64 primes. *)
Definition K : list Z := Eval vm_compute in map fracCbrt (primesBelow 312).

(** The eight working variables / chaining values. *)
Record state := mkState { ha : Z; hb : Z; hc : Z; hd : Z; he : Z; hf : Z; hg : Z; hh : Z }.

(** The initial hash value: from the square roots of the first 8 primes. *)
Definition init : state :=
  Eval vm_compute in
    mkState (fracSqrt 2) (fracSqrt 3) (fracSqrt 5) (fracSqrt 7)
            (fracSqrt 11) (fracSqrt 13) (fracSqrt 17) (fracSqrt 19).

(** Padding: the byte 0x80, zero bytes up to 56 modulo 64, then the
    message length in bits as a big-endian 64-bit integer. *)
Definition be_bytes (n : nat) (x : Z) : list Z :=
  map (fun i => Z.shiftr x (8 * Z.of_nat i) mod 256) (rev (seq 0 n)).

Definition pad (msg : list Z) : list Z :=
  let l := Z.of_nat (length msg) in
  let zeros := Z.to_nat ((55 - l) mod 64) in
  msg ++ [128] ++ repeat 0 zeros ++ be_bytes 8 (8 * l).

(** Big-endian grouping of bytes into 32-bit words. *)
Fixpoint words (bs : list Z) : list Z :=
  match bs with
  | b0 :: b1 :: b2 :: b3 :: rest =>
      (b0 * 16777216 + b1 * 65536 + b2 * 256 + b3) :: words rest
  | _ => []
  end.

(** The message schedule: [prev] holds the words computed so far, most
    recent first. *)
Fixpoint extend (n : nat) (prev : list Z) : list Z :=
  match n with
  | O => prev
  | S n' =>
      let w := add32 (add32 (sigma1 (nth 1 prev 0)) (nth 6 prev 0))
                     (add32 (sigma0 (nth 14 prev 0)) (nth 15 prev 0)) in
      extend n' (w :: prev)
  end.

Definition schedule (block : list Z) : list Z :=
  rev (extend 48 (rev block)).

Definition round (s : state) (kw : Z * Z) : state :=
  let t1 := add32 (add32 (add32 (hh s) (Sigma1 (he s)))
                         (add32 (Ch (he s) (hf s) (hg s)) (fst kw))) (snd kw) in
  let t2 := add32 (Sigma0 (ha s)) (Maj (ha s) (hb s) (hc s)) in
  mkState (add32 t1 t2) (ha s) (hb s) (hc s) (add32 (hd s) t1) (he s) (hf s) (hg s).

Definition compress (h : state) (block : list Z) : state :=
  let s := fold_left round (combine K (schedule block)) h in
  mkState (add32 (ha h) (ha s)) (add32 (hb h) (hb s)) (add32 (hc h) (hc s))
          (add32 (hd h) (hd s)) (add32 (he h) (he s)) (add32 (hf h) (hf s))
          (add32 (hg h) (hg s)) (add32 (hh h) (hh s)).

(** Blocks of sixteen words; [fuel] bounds the number of blocks. *)
Fixpoint blocks (fuel : nat) (h : state) (ws : list Z) : state :=
  match fuel, ws with
  | S fuel', _ :: _ => blocks fuel' (compress h (firstn 16 ws)) (skipn 16 ws)
  | _, _ => h
  end.

Definition digest (h : state) : list Z :=
  be_bytes 4 (ha h) ++ be_bytes 4 (hb h) ++ be_bytes 4 (hc h) ++ be_bytes 4 (hd h) ++
  be_bytes 4 (he h) ++ be_bytes 4 (hf h) ++ be_bytes 4 (hg h) ++ be_bytes 4 (hh h).

(** [sha256.Sum256] *)
Definition Sum256 (msg : list Z) : list Z :=
  let ws := words (pad msg) in
  digest (blocks (length ws) init ws).

End Sha256.

Module Hex.

(** [hextable] *)
Definition hextable : string := "0123456789abcdef".

Definition digit (n : Z) : ascii :=
  match String.get (Z.to_nat n) hextable with
  | Some c => c
  | None => "0"%char
  end.

(** [hex.EncodeToString] *)
Fixpoint EncodeToString (src : list Z) : string :=
  match src with
  | [] => EmptyString
  | v :: rest =>
      String (digit (Z.shiftr v 4)) (String (digit (Z.land v 15)) (EncodeToString rest))
  end.

End Hex.

(** [[]byte(s)] *)
Fixpoint bytesOf (s : string) : list Z :=
  match s with
  | EmptyString => []
  | String c s' => Z.of_nat (nat_of_ascii c) :: bytesOf s'
  end.

(** [ContentHash]: [hex.EncodeToString(hash[:])[:12]] with
    [hash := sha256.Sum256([]byte(n.Content))]. *)
Definition ContentHash (n : Note.t) : string :=
  sliceTo 12 (Hex.EncodeToString (Sha256.Sum256 (bytesOf (Note.Content n)))).

(** ** The metadata index ([.meta.json]) *)

Module FileMeta.
Record t := mk {
  ContentHash : string;
  EnrichedAt : Time;
  Tags : list string;
  Summary : string;
  Related : list string
}.
(** [&FileMeta{}] *)
Definition zero : t := mk EmptyString zeroTime [] EmptyString [].
(** [meta.Related = v] *)
Definition setRelated (v : list string) (meta : t) : t :=
  mk (ContentHash meta) (EnrichedAt meta) (Tags meta) (Summary meta) v.
(** [meta.EnrichedAt = v] *)
Definition setEnrichedAt (v : Time) (meta : t) : t :=
  mk (ContentHash meta) v (Tags meta) (Summary meta) (Related meta).
End FileMeta.

(** [MetaFile.Files].  Every key owns its entry: a [*FileMeta] is only
    created for one key ([&FileMeta{}] in [UpdateFromNote] and [CmdSync], or
    by the JSON decoder), so the map of pointers is modelled by the map of
    the records pointed to; a key that is missing (or maps to [nil]) has no
    entry. *)
Abbreviation MetaFile := (gmap string FileMeta.t).

(** [GetFileMeta] *)
Definition GetFileMeta (m : MetaFile) (filename : string) : option FileMeta.t :=
  m !! filename.

(** [SetFileMeta] *)
Definition SetFileMeta (m : MetaFile) (filename : string) (meta : FileMeta.t) : MetaFile :=
  <[filename := meta]> m.

(** [NeedsEnrichment] *)
Definition NeedsEnrichment (m : MetaFile) (filename currentHash : string) : bool :=
  match m !! filename with
  | None => true
  | Some meta => negb (String.eqb (FileMeta.ContentHash meta) currentHash)
  end.

(** [UpdateFromNote] *)
Definition UpdateFromNote `{Env} (m : MetaFile) (note : Note.t) : MetaFile :=
  let filename := Base (Note.Filename note) in
  let meta := match m !! filename with
              | Some meta => meta
              | None => FileMeta.zero
              end in
  <[filename := FileMeta.mk (ContentHash note)
                            (FileMeta.EnrichedAt meta)
                            (Frontmatter.Tags (Note.Frontmatter note))
                            (Frontmatter.Summary (Note.Frontmatter note))
                            (Frontmatter.Related (Note.Frontmatter note))]> m.

(** [UpdateFromNoteWithEnrichment]; [now] is the value of [time.Now()]. *)
Definition UpdateFromNoteWithEnrichment `{Env} (now : Time) (m : MetaFile) (note : Note.t)
  : MetaFile :=
  let m := UpdateFromNote m note in
  let filename := Base (Note.Filename note) in
  alter (FileMeta.setEnrichedAt now) filename m.

(** [Contains] *)
Fixpoint Contains (slice : list string) (item : string) : bool :=
  match slice with
  | [] => false
  | s :: rest => if String.eqb s item then true else Contains rest item
  end.

(** [RemoveString] *)
Fixpoint RemoveString (slice : list string) (item : string) : list string :=
  match slice with
  | [] => []
  | s :: rest =>
      if negb (String.eqb s item) then s :: RemoveString rest item
      else RemoveString rest item
  end.

(** One block [if meta := m.Files[k]; meta != nil { ... }] of [AddRelation]. *)
Definition addOneWay (m : MetaFile) (k item : string) : MetaFile :=
  match m !! k with
  | Some meta =>
      if negb (Contains (FileMeta.Related meta) item)
      then <[k := FileMeta.setRelated (FileMeta.Related meta ++ [item]) meta]> m
      else m
  | None => m
  end.

(** [AddRelation] *)
Definition AddRelation (m : MetaFile) (from to : string) : MetaFile :=
  let m := addOneWay m from to in
  addOneWay m to from.

(** One block of [RemoveRelation]. *)
Definition removeOneWay (m : MetaFile) (k item : string) : MetaFile :=
  match m !! k with
  | Some meta =>
      <[k := FileMeta.setRelated (RemoveString (FileMeta.Related meta) item) meta]> m
  | None => m
  end.

(** [RemoveRelation] *)
Definition RemoveRelation (m : MetaFile) (from to : string) : MetaFile :=
  let m := removeOneWay m from to in
  removeOneWay m to from.

(** The [related] list the index holds for [k]; [[]] when [k] has no entry. *)
Definition relatedOf (m : MetaFile) (k : string) : list string :=
  match m !! k with
  | Some meta => FileMeta.Related meta
  | None => []
  end.

(** ** [CmdSync]: removing the entries of deleted files *)

(** The loop [for filename := range meta.Files] that ends [CmdSync].
    [filenames] is the order in which the range yields the keys,
    [fileExists filename] tells that [os.Stat] on the note's path does not
    report [IsNotExist]; the messages printed are left out. *)
Definition removeDeleted (fileExists : string -> bool) (dryRun : bool)
    (filenames : list string) (m : MetaFile) : MetaFile :=
  fold_left
    (fun (m : MetaFile) filename =>
       if negb (fileExists filename)
       then if dryRun then m else delete filename m
       else m)
    filenames m.

(** ** [cmd_graph.go]: the neighbourhood of a note *)

(** The notes directory as [getSummary] and [showNeighborhood] read it:
    [noteExists f] for [os.Stat]; [noteSummary f] for the summary or first
    line of the parsed file, [EmptyString] when it cannot be parsed. *)
Record NotesDir := {
  noteExists : string -> bool;
  noteSummary : string -> string
}.

(** [getSummary] *)
Definition getSummary (dir : NotesDir) (m : MetaFile) (filename : string) : string :=
  match m !! filename with
  | Some fileMeta =>
      if negb (String.eqb (FileMeta.Summary fileMeta) EmptyString)
      then FileMeta.Summary fileMeta
      else noteSummary dir filename
  | None => noteSummary dir filename
  end.

(** The traversal state: the map [visited], and a log of the identifiers
    for which [visited[x] = true] was executed, latest first.  The log is
    not in the source; it records the expansions. *)
Record walk := mkWalk {
  visited : gset string;
  expanded : list string
}.

Definition mark (f : string) (w : walk) : walk :=
  mkWalk ({[ f ]} ∪ visited w) (f :: expanded w).

(** [graphNode] *)
Inductive graphNode :=
| GraphNode (Filename Summary : string) (Related : list graphNode).

(** The loop [for _, rel := range fileMeta.Related] of [buildGraph], with
    [step] for the recursive call. *)
Fixpoint buildChildren (step : string -> walk -> graphNode * walk)
    (related : list string) (w : walk) : list graphNode * walk :=
  match related with
  | [] => ([], w)
  | rel :: rest =>
      let '(child, w) := step rel w in
      let '(children, w) := buildChildren step rest w in
      (child :: children, w)
  end.

(** [buildGraph f d], with [n = Z.to_nat d]: [d <= 0] is [n = 0] and
    [d - 1] is the predecessor of [n]. *)
Fixpoint buildGraph (dir : NotesDir) (m : MetaFile) (n : nat) (f : string) (w : walk)
  : graphNode * walk :=
  let summary := getSummary dir m f in
  match n with
  | O => (GraphNode f summary [], w)
  | S n' =>
      if decide (f ∈ visited w) then (GraphNode f summary [], w)
      else
        let w := mark f w in
        match m !! f with
        | Some fileMeta =>
            let '(children, w) :=
              buildChildren (buildGraph dir m n') (FileMeta.Related fileMeta) w in
            (GraphNode f summary children, w)
        | None => (GraphNode f summary [], w)
        end
  end.

(** A line printed by [printTree], as the arguments of its [Printf], with
    the lines printed by the nested call of [printTree] below it. *)
Inductive treeLine :=
| TreeLine (prefix connector rel summary : string) (below : list treeLine).

(** The loop [for i, rel := range related] of [printTree]; [expand] is the
    block guarded by [depth > 0 && !visited[rel]]. *)
Fixpoint printLoop (dir : NotesDir) (m : MetaFile)
    (expand : string -> string -> walk -> list treeLine * walk)
    (related : list string) (prefix : string) (w : walk) : list treeLine * walk :=
  match related with
  | [] => ([], w)
  | rel :: rest =>
      let isLast := match rest with [] => true | _ => false end in
      let connector := if isLast then "└── " else "├── " in
      let childPrefix := if isLast then prefix ++ "    " else prefix ++ "│   " in
      let summary := getSummary dir m rel in
      let '(below, w) := expand rel childPrefix w in
      let '(lines, w) := printLoop dir m expand rest prefix w in
      (TreeLine prefix connector rel summary below :: lines, w)
  end.

(** [printTree related depth prefix visited], with [n = Z.to_nat depth]:
    [depth > 0] is [n = S n'] and [depth - 1] is [n']. *)
Fixpoint printTree (dir : NotesDir) (m : MetaFile) (n : nat)
    (related : list string) (prefix : string) (w : walk) : list treeLine * walk :=
  printLoop dir m
    (fun rel childPrefix w =>
       match n with
       | O => ([], w)
       | S n' =>
           if decide (rel ∈ visited w) then ([], w)
           else
             let w := mark rel w in
             match m !! rel with
             | Some fileMeta =>
                 match FileMeta.Related fileMeta with
                 | [] => ([], w)
                 | _ :: _ =>
                     let unvisited :=
                       filter (fun r => r ∉ visited w) (FileMeta.Related fileMeta) in
                     match unvisited with
                     | [] => ([], w)
                     | _ :: _ => printTree dir m n' unvisited childPrefix w
                     end
                 end
             | None => ([], w)
             end
       end)
    related prefix w.

(** What [showNeighborhood] prints. *)
Inductive output :=
| OutJSON (root : graphNode)
| OutText (filename rootSummary : string) (lines : list treeLine).

(** The JSON branch of [showNeighborhood], with the final traversal state. *)
Definition neighborhoodJSON (dir : NotesDir) (m : MetaFile) (filename : string) (depth : Z)
  : graphNode * walk :=
  buildGraph dir m (Z.to_nat depth) filename (mkWalk ∅ []).

(** The least and the greatest [int] (64 bits), and the value an [int]
    operation keeps of its exact result. *)
Definition minInt : Z := -9223372036854775808.
Definition maxInt : Z := 9223372036854775807.
Definition wrapInt (z : Z) : Z :=
  (z - minInt) mod 18446744073709551616 + minInt.

(** The text branch of [showNeighborhood], with the final traversal state.
    The [depth - 1] handed to [printTree] is not guarded by a test on
    [depth], so at the least [int] it wraps around to the greatest; inside
    [buildGraph] and [printTree] the subtraction only runs on a positive
    depth. *)
Definition neighborhoodText (dir : NotesDir) (m : MetaFile) (filename : string) (depth : Z)
  : list treeLine * walk :=
  let w := mark filename (mkWalk ∅ []) in
  match m !! filename with
  | None => ([], w)
  | Some fileMeta =>
      printTree dir m (Z.to_nat (wrapInt (depth - 1))) (FileMeta.Related fileMeta)
        EmptyString w
  end.

(** [showNeighborhood]; [None] is the error ["note not found"]. *)
Definition showNeighborhood (dir : NotesDir) (m : MetaFile) (filename : string)
    (depth : Z) (asJSON : bool) : option output :=
  if negb (noteExists dir filename) then None
  else
    let rootSummary := getSummary dir m filename in
    if asJSON then Some (OutJSON (fst (neighborhoodJSON dir m filename depth)))
    else Some (OutText filename rootSummary (fst (neighborhoodText dir m filename depth))).

(** The number of nodes and the height of the trees printed. *)
Fixpoint graphSize (g : graphNode) : nat :=
  match g with
  | GraphNode _ _ related => S (list_sum (map graphSize related))
  end.


Fixpoint linesSize (l : treeLine) : nat :=
  match l with
  | TreeLine _ _ _ _ below => S (list_sum (map linesSize below))
  end.


(** ** Auxiliary definitions for the statements *)

(** The list [addOneWay] leaves in the entry. *)
Definition addItem (l : list string) (x : string) : list string := if Contains l x then l else l ++ [x].

(** The index of [TestBidirectionalRelations]. *)
Definition testRelations : MetaFile :=
  {[ "a.md" := FileMeta.zero; "b.md" := FileMeta.zero ]}.

(** The log of expansions names every visited identifier once. *)
Definition walk_ok (w : walk) : Prop :=
  NoDup (expanded w) /\ forall x, x ∈ expanded w <-> x ∈ visited w.

(** [w'] is reached from [w] by expansions only. *)
Definition extends (w w' : walk) : Prop :=
  walk_ok w -> walk_ok w' /\ exists new, expanded w' = (new ++ expanded w)%list.

Definition outputSize (o : output) : nat :=
  match o with
  | OutJSON root => graphSize root
  | OutText _ _ lines => S (list_sum (map linesSize lines))
  end.


Fixpoint expandedNodes (g : graphNode) : list string :=
  match g with
  | GraphNode f _ related =>
      match related with
      | [] => []
      | _ :: _ => f :: flat_map expandedNodes related
      end
  end.



Fixpoint expandedLines (l : treeLine) : list string :=
  match l with
  | TreeLine _ _ rel _ below =>
      match below with
      | [] => []
      | _ :: _ => rel :: flat_map expandedLines below
      end
  end.


(** The number of related notes that the index gives the notes of a
    list. *)
Definition relatedCount (m : MetaFile) (l : list string) : nat :=
  list_sum (map (fun f => length (relatedOf m f)) l).

(** A notes directory in which every note exists and has no summary. *)
Definition exampleDir : NotesDir :=
  {| noteExists := fun _ => true; noteSummary := fun _ => EmptyString |}.

Definition entry (related : list string) : FileMeta.t :=
  FileMeta.mk EmptyString zeroTime [] EmptyString related.

(** [A: [B]], [B: [A, C]], [C: [B]]. *)
Definition chainGraph : MetaFile :=
  {[ "A" := entry ["B"]; "B" := entry ["A"; "C"]; "C" := entry ["B"] ]}.

(** Three notes related to each other, the relations added by
    [AddRelation]: [A: [B, C]], [B: [A, C]], [C: [B, A]]. *)
Definition cycleGraph : MetaFile :=
  AddRelation
    (AddRelation
       (AddRelation {[ "A" := entry []; "B" := entry []; "C" := entry [] ]} "A" "B")
       "B" "C")
    "C" "A".

Definition isHexDigit (c : ascii) : bool :=
  let n := nat_of_ascii c in
  ((48 <=? n) && (n <=? 57) || (97 <=? n) && (n <=? 102))%nat.

Fixpoint allChars (p : ascii -> bool) (s : string) : bool :=
  match s with
  | EmptyString => true
  | String c s' => p c && allChars p s'
  end.

(** The notes of [TestContentHash] and [TestContentHashIgnoresFrontmatter]. *)
Definition testNote (tags : list string) (summary content : string) : Note.t :=
  Note.mk EmptyString (Frontmatter.mk zeroTime tags summary []) content.

(** Strings without a line feed. *)
Definition noLF (s : string) : bool := allChars (fun c => negb (Ascii.eqb c LF)) s.

(** The header text [ToMarkdown] writes between the two marker lines,
    without its last line feed: what [ParseNoteContent] hands to the YAML
    decoder when it reads the serialization back. *)
Definition headerText `{Env} (fm : Frontmatter.t) : string :=
  ("created: " ++ formatNoteTime (Frontmatter.Created fm)) ++ nl ++
  ("tags: [" ++ writeItems 0 (Frontmatter.Tags fm) ++ "]") ++ nl ++
  ("summary: " ++ (if String.eqb (Frontmatter.Summary fm) EmptyString
                   then String DQ (String DQ EmptyString)
                   else Quote (Frontmatter.Summary fm))) ++ nl ++
  ("related: [" ++ writeItems 0 (Frontmatter.Related fm) ++ "]").

(** The marker texts of [ParseNoteContent]: the opening marker line, the
    closing marker line with the line feed before it, and the closing
    marker that ends a text. *)
Definition openMarker : string := "---" ++ nl.
Definition closeMarker : string := nl ++ "---" ++ nl.
Definition endMarker : string := nl ++ "---".

(** [text] is the header text of [data] and [body] is what follows the
    header: [data] starts with the opening marker line, and [text] runs
    from there to the first closing marker line, [body] being the rest; or
    there is no closing marker line, [data] ends with the closing marker
    and [body] is empty.  Stated on the text alone, without the search of
    the code. *)
Definition splitsAt (data text body : string) : Prop :=
  (data = openMarker ++ text ++ closeMarker ++ body /\
   forall text' body', data = openMarker ++ text' ++ closeMarker ++ body' ->
     (String.length text <= String.length text')%nat) \/
  (data = openMarker ++ text ++ endMarker /\ body = EmptyString /\
   forall text' body', data <> openMarker ++ text' ++ closeMarker ++ body').

(** An environment to run the codec in.  [quoteASCII] agrees with [%q] on
    ASCII text; [decodeZero] decodes the canonical header of the zero
    [Frontmatter] and refuses every other text; [Base] is the identity, as
    on a file name without separator. *)
Definition BS : ascii := "092"%char.

Definition escapeChar (c : ascii) : string :=
  let n := nat_of_ascii c in
  let esc (x : ascii) := String BS (String x EmptyString) in
  if (n =? 34)%nat then esc DQ
  else if (n =? 92)%nat then esc BS
  else if (n =? 7)%nat then esc "a"%char
  else if (n =? 8)%nat then esc "b"%char
  else if (n =? 12)%nat then esc "f"%char
  else if (n =? 10)%nat then esc "n"%char
  else if (n =? 13)%nat then esc "r"%char
  else if (n =? 9)%nat then esc "t"%char
  else if (n =? 11)%nat then esc "v"%char
  else if ((n <? 32) || (n =? 127))%nat then
    String BS (String "x"%char (Hex.EncodeToString [Z.of_nat n]))
  else String c EmptyString.

Fixpoint escapeString (s : string) : string :=
  match s with
  | EmptyString => EmptyString
  | String c s' => escapeChar c ++ escapeString s'
  end.

Definition quoteASCII (s : string) : string :=
  String DQ (escapeString s ++ String DQ EmptyString).

Definition zeroHeader : string :=
  Eval vm_compute in
    headerText (H := Build_Env quoteASCII (fun _ => None) (fun p => p)) Frontmatter.zero.

Definition decodeZero (text : string) : option Frontmatter.t :=
  if String.eqb text zeroHeader then Some Frontmatter.zero else None.

Definition exampleEnv : Env :=
  {| Quote := quoteASCII; Unmarshal := decodeZero; Base := fun p => p |}.


(** ** Further functions of the repository *)

(** The invariant of the index for the notes it holds: a related entry in
    one direction has its reverse. *)
Definition symmetricIndex (m : MetaFile) : Prop :=
  forall x y, is_Some (m !! x) -> is_Some (m !! y) ->
    (y ∈ relatedOf m x <-> x ∈ relatedOf m y).

(** The fields of an entry other than its related list. *)
Definition otherFields (e : FileMeta.t) : string * Time * list string * string :=
  (FileMeta.ContentHash e, FileMeta.EnrichedAt e, FileMeta.Tags e, FileMeta.Summary e).

(** The loop [for i := range a] of [stringSliceEqual]. *)
Fixpoint sliceEqualLoop (a b : list string) : bool :=
  match a, b with
  | x :: a', y :: b' => if negb (String.eqb x y) then false else sliceEqualLoop a' b'
  | _, _ => true
  end.

(** [stringSliceEqual] *)
Definition stringSliceEqual (a b : list string) : bool :=
  if negb (length a =? length b)%nat then false else sliceEqualLoop a b.

(** [detectChanges] *)
Definition detectChanges (existing : option FileMeta.t) (note : Note.t) (newHash : string)
  : list string :=
  match existing with
  | None => ["new"]
  | Some existing =>
      let changes : list string := [] in
      let changes :=
        if negb (String.eqb (FileMeta.ContentHash existing) newHash)
        then (changes ++ ["content changed"])%list else changes in
      let changes :=
        if negb (stringSliceEqual (FileMeta.Tags existing)
                   (Frontmatter.Tags (Note.Frontmatter note)))
        then (changes ++ ["tags changed"])%list else changes in
      let changes :=
        if negb (String.eqb (FileMeta.Summary existing)
                   (Frontmatter.Summary (Note.Frontmatter note)))
        then (changes ++ ["summary changed"])%list else changes in
      let changes :=
        if negb (stringSliceEqual (FileMeta.Related existing)
                   (Frontmatter.Related (Note.Frontmatter note)))
        then (changes ++ ["related changed"])%list else changes in
      changes
  end.

(** The body of the loop over the notes in [CmdSync], for a note that was
    parsed: the changes reported and the index afterwards. *)
Definition syncNote (dryRun : bool) (m : MetaFile) (filename : string) (note : Note.t)
  : list string * MetaFile :=
  let existingMeta := m !! filename in
  let newHash := ContentHash note in
  let changes := detectChanges existingMeta note newHash in
  if negb dryRun then
    let existing := match existingMeta with
                    | Some e => e
                    | None => FileMeta.zero
                    end in
    (changes,
     <[filename := FileMeta.mk newHash (FileMeta.EnrichedAt existing)
                     (Frontmatter.Tags (Note.Frontmatter note))
                     (Frontmatter.Summary (Note.Frontmatter note))
                     (Frontmatter.Related (Note.Frontmatter note))]> m)
  else (changes, m).

(** [now.Format("2006-01-02-1504")] *)
Definition formatFilenameTime (t : Time) : string :=
  pad4 (year t) ++ "-" ++ pad2 (month t) ++ "-" ++ pad2 (day t) ++ "-" ++
  pad2 (hour t) ++ pad2 (minute t).

(** [%d] on a non-negative [int]: its decimal digits. *)
Fixpoint itoaLoop (fuel : nat) (n : Z) (acc : string) : string :=
  match fuel with
  | O => acc
  | S fuel' =>
      let acc := String (digitChar (n mod 10)) acc in
      if n / 10 =? 0 then acc else itoaLoop fuel' (n / 10) acc
  end.

Definition itoa (n : Z) : string := itoaLoop 20 n EmptyString.

(** [fmt.Sprintf("%s-%d.md", base, i)] *)
Definition suffixedName (base : string) (i : Z) : string :=
  base ++ "-" ++ itoa i ++ ".md".

(** The loop [for i := 1; i < 100; i++] of [generateFilename], from [i]
    on, with [left = 100 - i] iterations to go. *)
Fixpoint suffixLoop (fileExists : string -> bool) (base : string) (i : Z) (left : nat)
  : option string :=
  match left with
  | O => None
  | S left' =>
      let filename := suffixedName base i in
      if negb (fileExists filename) then Some filename
      else suffixLoop fileExists base (i + 1) left'
  end.

(** [generateFilename]; [now] is the value of [time.Now()], [fileExists]
    tells that [os.Stat] does not report [IsNotExist], and [None] is the
    error ["too many notes in the same minute"]. *)
Definition generateFilename (fileExists : string -> bool) (now : Time) : option string :=
  let base := formatFilenameTime now in
  let filename := base ++ ".md" in
  if negb (fileExists filename) then Some filename
  else suffixLoop fileExists base 1 99.

(** [filepath.Ext], scanning [path] from its end: [back] holds the bytes
    not yet read, last first, and [suffix] the bytes already read. *)
Fixpoint extScan (back : list ascii) (suffix : string) : string :=
  match back with
  | [] => EmptyString
  | c :: back' =>
      if Ascii.eqb c "/" then EmptyString
      else if Ascii.eqb c "." then String c suffix
      else extScan back' (String c suffix)
  end.

Definition Ext (path : string) : string :=
  extScan (rev (list_ascii_of_string path)) EmptyString.

(** [NormalizeFilename] *)
Definition NormalizeFilename (filename : string) : string :=
  if negb (String.eqb (Ext filename) ".md") then filename ++ ".md" else filename.

(** The loop [for _, t2 := range meta2.Tags] of [getSharedTags], left at
    the first match; [EqualFold] is [strings.EqualFold]. *)
Fixpoint sharedInner (EqualFold : string -> string -> bool) (t1 : string)
    (tags2 : list string) (shared : list string) : list string :=
  match tags2 with
  | [] => shared
  | t2 :: rest =>
      if EqualFold t1 t2 then (shared ++ [t1])%list
      else sharedInner EqualFold t1 rest shared
  end.

(** [getSharedTags] *)
Definition getSharedTags (EqualFold : string -> string -> bool) (meta : MetaFile)
    (file1 file2 : string) : list string :=
  match meta !! file1, meta !! file2 with
  | Some meta1, Some meta2 =>
      fold_left (fun shared t1 => sharedInner EqualFold t1 (FileMeta.Tags meta2) shared)
                (FileMeta.Tags meta1) []
  | _, _ => []
  end.

(** The loop [for _, nt := range noteTags] of [hasAnyTag]. *)
Fixpoint anyNoteTag (EqualFold : string -> string -> bool) (ft : string)
    (noteTags : list string) : bool :=
  match noteTags with
  | [] => false
  | nt :: rest => if EqualFold ft nt then true else anyNoteTag EqualFold ft rest
  end.

(** [hasAnyTag] *)
Fixpoint hasAnyTag (EqualFold : string -> string -> bool)
    (noteTags filterTags : list string) : bool :=
  match filterTags with
  | [] => false
  | ft :: rest =>
      if anyNoteTag EqualFold ft noteTags then true
      else hasAnyTag EqualFold noteTags rest
  end.

(** The JSON branch of [showAllConnections]: the slice [connections] as
    (From, To) pairs; [filenames] is the order in which the range over
    [meta.Files] yields the keys. *)
Definition allConnections (filenames : list string) (m : MetaFile)
  : list (string * list string) :=
  fold_left
    (fun connections filename =>
       match m !! filename with
       | Some fileMeta =>
           match FileMeta.Related fileMeta with
           | [] => connections
           | _ :: _ => (connections ++ [(filename, FileMeta.Related fileMeta)])%list
           end
       | None => connections
       end)
    filenames [].

Definition nodeName (g : graphNode) : string :=
  match g with GraphNode f _ _ => f end.

Definition nodeChildren (g : graphNode) : list graphNode :=
  match g with GraphNode _ _ related => related end.

Definition lineName (l : treeLine) : string :=
  match l with TreeLine _ _ rel _ _ => rel end.

Definition lineBelow (l : treeLine) : list treeLine :=
  match l with TreeLine _ _ _ _ below => below end.

(** Every node of the tree is a leaf or has the related list of its note,
    in order, as its children. *)
Fixpoint followsIndex (m : MetaFile) (g : graphNode) : Prop :=
  match g with
  | GraphNode f _ children =>
      (children = [] \/ map nodeName children = relatedOf m f) /\
      fold_right and True (map (followsIndex m) children)
  end.

(** Every line nested below a line names a related note of that line's
    note. *)
Fixpoint linesFollowIndex (m : MetaFile) (l : treeLine) : Prop :=
  match l with
  | TreeLine _ _ rel _ below =>
      (forall x, x ∈ map lineName below -> x ∈ relatedOf m rel) /\
      fold_right and True (map (linesFollowIndex m) below)
  end.

(** [strings.Join(elems, sep)] *)
Fixpoint Join (elems : list string) (sep : string) : string :=
  match elems with
  | [] => EmptyString
  | x :: rest =>
      match rest with
      | [] => x
      | _ :: _ => x ++ sep ++ Join rest sep
      end
  end.

(** The note [CmdNew] saves: created now, no tags, no summary, no related
    notes; the arguments joined by spaces between two line feeds as its
    body, or a single line feed before the editor is opened. *)
Definition newNote (filename : string) (now : Time) (args : list string) : Note.t :=
  Note.mk filename (Frontmatter.mk now [] EmptyString [])
    (match args with
     | [] => nl
     | _ :: _ => nl ++ Join args " " ++ nl
     end).

(** What [CmdShow] prints of a note's content. *)
Definition showContent (content : string) : string :=
  match content with
  | String c rest => if Ascii.eqb c LF then rest else content
  | EmptyString => content
  end.

(** One turn of the loop [for _, oldRel := range prevRelated] of
    [CmdUpdate], on the index as it is once the entry of the updated note
    is set.  [contains] and [removeString] are the helpers of package main
    that the loop calls; their code is not among the sources, so they are
    taken as functions of their arguments.  The rewrite of the note's file
    is left out. *)
Definition dropReverse (contains : list string -> string -> bool)
    (removeString : list string -> string -> list string)
    (filename : string) (newRelated : list string) (m : MetaFile) (oldRel : string)
  : MetaFile :=
  if negb (contains newRelated oldRel) then
    match m !! oldRel with
    | Some relMeta =>
        <[oldRel := FileMeta.setRelated
                      (removeString (FileMeta.Related relMeta) filename) relMeta]> m
    | None => m
    end
  else m.

(** One turn of the loop [for _, newRel := range newRelated] of
    [CmdUpdate], on the index; without an entry for [newRel] only the
    note's file is edited. *)
Definition addReverse (contains : list string -> string -> bool)
    (filename : string) (prevRelated : list string) (m : MetaFile) (newRel : string)
  : MetaFile :=
  if negb (contains prevRelated newRel) then
    match m !! newRel with
    | Some relMeta =>
        if negb (contains (FileMeta.Related relMeta) filename)
        then <[newRel := FileMeta.setRelated
                           (FileMeta.Related relMeta ++ [filename]) relMeta]> m
        else m
    | None => m
    end
  else m.

(** The two loops of [CmdUpdate] under [if *relatedFlag != ""], on the
    index. *)
Definition updateRelations (contains : list string -> string -> bool)
    (removeString : list string -> string -> list string)
    (filename : string) (prevRelated newRelated : list string) (m : MetaFile) : MetaFile :=
  fold_left (addReverse contains filename prevRelated) newRelated
    (fold_left (dropReverse contains removeString filename newRelated) prevRelated m).

(** The map [tagCounts] of [CmdTags] after its loop over the notes that
    were parsed; [ToLower] is [strings.ToLower]. *)
Definition countTags (ToLower : string -> string) (notes : list Note.t) : gmap string nat :=
  fold_left
    (fun tagCounts note =>
       fold_left
         (fun (tagCounts : gmap string nat) tag =>
            <[ToLower tag := S (default 0%nat (tagCounts !! ToLower tag))]> tagCounts)
         (Frontmatter.Tags (Note.Frontmatter note)) tagCounts)
    notes ∅.

(** [strings.Split(s, ",")] *)
Fixpoint splitComma (s : string) : list string :=
  match s with
  | EmptyString => [EmptyString]
  | String c rest =>
      if Ascii.eqb c "," then EmptyString :: splitComma rest
      else match splitComma rest with
           | [] => [String c EmptyString]
           | p :: ps => String c p :: ps
           end
  end.

(** [parseCSV]; [TrimSpace] is [strings.TrimSpace]. *)
Definition parseCSV (TrimSpace : string -> string) (s : string) : list string :=
  if String.eqb s EmptyString then []
  else
    fold_left
      (fun result p =>
         let p := TrimSpace p in
         if negb (String.eqb p EmptyString) then (result ++ [p])%list else result)
      (splitComma s) [].

(** The entry of [tagCounts] that a list of tags accounts for. *)
Definition countsOf (ToLower : string -> string) (tags : list string) (k : string)
  : option nat :=
  match count_occ string_dec (map ToLower tags) k with
  | O => None
  | S c => Some (S c)
  end.

(** ** [CmdSync], [CmdDiff] and [GetNotesNeedingEnrichment] over a directory *)

(** An [os.DirEntry], as far as the commands look at it. *)
Module DirEntry.
Record t := mk { Name : string; IsDir : bool }.
End DirEntry.

(** [entry.IsDir() || !strings.HasSuffix(entry.Name(), ".md")], the test
    under which the three loops [continue]. *)
Definition skipped (entry : DirEntry.t) : bool :=
  DirEntry.IsDir entry || negb (HasSuffix (DirEntry.Name entry) ".md").

(** The loop [for _, entry := range entries] of [CmdSync] on the index;
    [ParseNote filename] is [ParseNote] on the path of the entry named
    [filename], [None] for an error. *)
Definition syncLoop (ParseNote : string -> option Note.t) (dryRun : bool)
    (entries : list DirEntry.t) (m : MetaFile) : MetaFile :=
  fold_left
    (fun m entry =>
       if skipped entry then m
       else
         let filename := DirEntry.Name entry in
         match ParseNote filename with
         | None => m
         | Some note => snd (syncNote dryRun m filename note)
         end)
    entries m.

(** The index [CmdSync] holds when it returns, which it saves unless the
    run is dry: [loaded] is the index read by [LoadMetaFile], [entries] the
    directory listing, [range m] the order in which the keys of [m] are
    ranged over. *)
Definition CmdSync (ParseNote : string -> option Note.t) (fileExists : string -> bool)
    (range : MetaFile -> list string) (force dryRun : bool)
    (entries : list DirEntry.t) (loaded : MetaFile) : MetaFile :=
  let meta := if force then ∅ else loaded in
  let meta := syncLoop ParseNote dryRun entries meta in
  removeDeleted fileExists dryRun (range meta) meta.

(** [GetNotesNeedingEnrichment], given the index and the listing. *)
Definition GetNotesNeedingEnrichment (ParseNote : string -> option Note.t)
    (entries : list DirEntry.t) (m : MetaFile) : list Note.t :=
  fold_left
    (fun notesList entry =>
       if skipped entry then notesList
       else
         match ParseNote (DirEntry.Name entry) with
         | None => notesList
         | Some note =>
             if NeedsEnrichment m (DirEntry.Name entry) (ContentHash note)
             then (notesList ++ [note])%list else notesList
         end)
    entries [].

(** The names [CmdDiff] prints, given the index and the listing. *)
Definition CmdDiff (ParseNote : string -> option Note.t)
    (entries : list DirEntry.t) (m : MetaFile) : list string :=
  fold_left
    (fun printed entry =>
       if skipped entry then printed
       else
         match ParseNote (DirEntry.Name entry) with
         | None => printed
         | Some note =>
             if NeedsEnrichment m (DirEntry.Name entry) (ContentHash note)
             then (printed ++ [DirEntry.Name entry])%list else printed
         end)
    entries [].

(** The listing has an entry named [k] that the loops do not skip and that
    [ParseNote] reads as [note]. *)
Definition readsAs (ParseNote : string -> option Note.t) (entries : list DirEntry.t)
    (k : string) (note : Note.t) : Prop :=
  exists entry, In entry entries /\ skipped entry = false /\
                DirEntry.Name entry = k /\ ParseNote k = Some note.

(** * Properties *)

(** ** The metadata index *)

Section MetaIndex.

Implicit Types (m : MetaFile) (l : list string) (a b k x y : string).

Lemma Contains_elem_of l x : Contains l x = true <-> x ∈ l.
Proof.
  induction l as [|s l IH]; simpl.
  - split; [discriminate | inversion 1].
  - destruct (String.eqb_spec s x) as [->|Hne].
    + split; [intros _; left | reflexivity].
    + rewrite IH, elem_of_cons. split; [auto | intros [?|?]; congruence].
Qed.

Lemma Contains_false l x : Contains l x = false <-> x ∉ l.
Proof.
  rewrite <- Contains_elem_of. destruct (Contains l x); split; congruence.
Qed.

Lemma elem_of_RemoveString l x y : y ∈ RemoveString l x <-> y ∈ l /\ y <> x.
Proof.
  induction l as [|s l IH]; simpl.
  - split; [inversion 1 | intros [H _]; inversion H].
  - destruct (String.eqb_spec s x) as [->|Hne]; simpl.
    + rewrite IH, elem_of_cons. intuition congruence.
    + rewrite !elem_of_cons, IH. intuition congruence.
Qed.

Lemma RemoveString_absent l x : x ∉ l -> RemoveString l x = l.
Proof.
  induction l as [|s l IH]; simpl; [reflexivity|].
  rewrite not_elem_of_cons. intros [Hne Hl].
  destruct (String.eqb_spec s x) as [->|_]; [congruence|].
  simpl. f_equal. auto.
Qed.

Lemma elem_of_addItem l x : x ∈ addItem l x.
Proof.
  unfold addItem. destruct (Contains l x) eqn:E.
  - by apply Contains_elem_of.
  - apply elem_of_app. right. by left.
Qed.

Lemma addItem_present l x : x ∈ l -> addItem l x = l.
Proof. intros H. unfold addItem. apply Contains_elem_of in H. by rewrite H. Qed.

Lemma addItem_idem l x : addItem (addItem l x) x = addItem l x.
Proof. apply addItem_present, elem_of_addItem. Qed.

Lemma count_occ_addItem l x :
  count_occ string_dec (addItem l x) x = Nat.max 1 (count_occ string_dec l x).
Proof.
  unfold addItem. destruct (Contains l x) eqn:E.
  - apply Contains_elem_of, list_elem_of_In in E.
    apply (count_occ_In string_dec) in E. lia.
  - apply Contains_false in E.
    rewrite count_occ_app. simpl. destruct (string_dec x x); [|congruence].
    assert (count_occ string_dec l x = 0%nat) as ->; [|reflexivity].
    apply count_occ_not_In. by rewrite <- list_elem_of_In.
Qed.

Lemma count_occ_addItem_ne l x y :
  y <> x -> count_occ string_dec (addItem l x) y = count_occ string_dec l y.
Proof.
  intros Hne. unfold addItem. destruct (Contains l x); [reflexivity|].
  rewrite count_occ_app. simpl. destruct (string_dec x y); [congruence | lia].
Qed.

Lemma setRelated_same (e : FileMeta.t) : FileMeta.setRelated (FileMeta.Related e) e = e.
Proof. by destruct e. Qed.

Lemma addOneWay_Some m k x e :
  m !! k = Some e ->
  addOneWay m k x = <[k := FileMeta.setRelated (addItem (FileMeta.Related e) x) e]> m.
Proof.
  intros H. unfold addOneWay, addItem. rewrite H.
  destruct (Contains (FileMeta.Related e) x); simpl; [|reflexivity].
  rewrite setRelated_same. symmetry. by apply insert_id.
Qed.

Lemma addOneWay_None m k x : m !! k = None -> addOneWay m k x = m.
Proof. intros H. unfold addOneWay. by rewrite H. Qed.

Lemma addOneWay_lookup_ne m k x k' : k' <> k -> addOneWay m k x !! k' = m !! k'.
Proof.
  intros Hne. unfold addOneWay. destruct (m !! k) as [e|] eqn:E; [|reflexivity].
  destruct (negb _); [|reflexivity]. by rewrite lookup_insert_ne.
Qed.

Lemma removeOneWay_Some m k x e :
  m !! k = Some e ->
  removeOneWay m k x = <[k := FileMeta.setRelated (RemoveString (FileMeta.Related e) x) e]> m.
Proof. intros H. unfold removeOneWay. by rewrite H. Qed.

Lemma removeOneWay_None m k x : m !! k = None -> removeOneWay m k x = m.
Proof. intros H. unfold removeOneWay. by rewrite H. Qed.

Lemma removeOneWay_lookup_ne m k x k' : k' <> k -> removeOneWay m k x !! k' = m !! k'.
Proof.
  intros Hne. unfold removeOneWay. destruct (m !! k) as [e|] eqn:E; [|reflexivity].
  by rewrite lookup_insert_ne.
Qed.

(** The related list of [k] after each half. *)
Lemma relatedOf_addOneWay m k x k' :
  relatedOf (addOneWay m k x) k' =
  if decide (k' = k) then
    match m !! k with Some e => addItem (FileMeta.Related e) x | None => [] end
  else relatedOf m k'.
Proof.
  unfold relatedOf. case_decide as Hk.
  - subst k'. destruct (m !! k) as [e|] eqn:E.
    + rewrite (addOneWay_Some _ _ _ _ E), lookup_insert_eq. reflexivity.
    + rewrite (addOneWay_None _ _ _ E), E. reflexivity.
  - by rewrite addOneWay_lookup_ne.
Qed.

Lemma relatedOf_removeOneWay m k x k' :
  relatedOf (removeOneWay m k x) k' =
  if decide (k' = k) then RemoveString (relatedOf m k) x else relatedOf m k'.
Proof.
  unfold relatedOf. case_decide as Hk.
  - subst k'. destruct (m !! k) as [e|] eqn:E.
    + rewrite (removeOneWay_Some _ _ _ _ E), lookup_insert_eq. reflexivity.
    + rewrite (removeOneWay_None _ _ _ E), E. reflexivity.
  - by rewrite removeOneWay_lookup_ne.
Qed.

Lemma addOneWay_is_Some m k x k' : is_Some (addOneWay m k x !! k') <-> is_Some (m !! k').
Proof.
  destruct (decide (k' = k)) as [->|Hne]; [|by rewrite addOneWay_lookup_ne].
  destruct (m !! k) as [e|] eqn:E.
  - rewrite (addOneWay_Some _ _ _ _ E), lookup_insert_eq. split; eauto.
  - by rewrite (addOneWay_None _ _ _ E), E.
Qed.

Lemma removeOneWay_is_Some m k x k' :
  is_Some (removeOneWay m k x !! k') <-> is_Some (m !! k').
Proof.
  destruct (decide (k' = k)) as [->|Hne]; [|by rewrite removeOneWay_lookup_ne].
  destruct (m !! k) as [e|] eqn:E.
  - rewrite (removeOneWay_Some _ _ _ _ E), lookup_insert_eq. split; eauto.
  - by rewrite (removeOneWay_None _ _ _ E), E.
Qed.

Lemma relatedOf_Some m k e : m !! k = Some e -> relatedOf m k = FileMeta.Related e.
Proof. intros H. unfold relatedOf. by rewrite H. Qed.

(** Both lists after [AddRelation], when both entries exist. *)
Lemma relatedOf_AddRelation m a b ea eb :
  m !! a = Some ea -> m !! b = Some eb ->
  relatedOf (AddRelation m a b) a = addItem (FileMeta.Related ea) b /\
  relatedOf (AddRelation m a b) b = addItem (FileMeta.Related eb) a.
Proof.
  intros Ha Hb. unfold AddRelation.
  destruct (decide (a = b)) as [->|Hne].
  - assert (ea = eb) as -> by congruence.
    rewrite relatedOf_addOneWay, decide_True by done.
    rewrite (addOneWay_Some _ _ _ _ Hb), lookup_insert_eq. simpl.
    rewrite addItem_idem. done.
  - rewrite !relatedOf_addOneWay.
    rewrite (decide_False (P := a = b)), (decide_True (P := b = b)) by done.
    rewrite decide_True, Ha by done.
    rewrite addOneWay_lookup_ne, Hb by done. done.
Qed.

Lemma relatedOf_RemoveRelation m a b :
  relatedOf (RemoveRelation m a b) a = RemoveString (relatedOf m a) b /\
  relatedOf (RemoveRelation m a b) b = RemoveString (relatedOf m b) a.
Proof.
  unfold RemoveRelation. destruct (decide (a = b)) as [->|Hne].
  - rewrite !relatedOf_removeOneWay, !decide_True by done.
    assert (RemoveString (RemoveString (relatedOf m b) b) b
            = RemoveString (relatedOf m b) b) as ->; [|done].
    apply RemoveString_absent. rewrite elem_of_RemoveString. tauto.
  - rewrite !relatedOf_removeOneWay.
    rewrite (decide_False (P := a = b)), (decide_True (P := b = b)) by done.
    rewrite (decide_True (P := a = a)), (decide_False (P := b = a)) by done. done.
Qed.

Lemma addOneWay_alter m k x :
  addOneWay m k x =
  alter (fun e => FileMeta.setRelated (addItem (FileMeta.Related e) x) e) k m.
Proof.
  apply map_eq. intros k'. destruct (decide (k' = k)) as [->|Hne].
  - rewrite lookup_alter_eq. destruct (m !! k) as [e|] eqn:E.
    + by rewrite (addOneWay_Some _ _ _ _ E), lookup_insert_eq.
    + by rewrite (addOneWay_None _ _ _ E), E.
  - by rewrite addOneWay_lookup_ne, lookup_alter_ne.
Qed.

Lemma removeOneWay_alter m k x :
  removeOneWay m k x =
  alter (fun e => FileMeta.setRelated (RemoveString (FileMeta.Related e) x) e) k m.
Proof.
  apply map_eq. intros k'. destruct (decide (k' = k)) as [->|Hne].
  - rewrite lookup_alter_eq. destruct (m !! k) as [e|] eqn:E.
    + by rewrite (removeOneWay_Some _ _ _ _ E), lookup_insert_eq.
    + by rewrite (removeOneWay_None _ _ _ E), E.
  - by rewrite removeOneWay_lookup_ne, lookup_alter_ne.
Qed.

Lemma addOneWay_idem m k x : addOneWay (addOneWay m k x) k x = addOneWay m k x.
Proof.
  rewrite !addOneWay_alter, alter_alter_eq. apply alter_ext.
  intros e _. simpl. unfold FileMeta.setRelated. simpl. by rewrite addItem_idem.
Qed.

Lemma addOneWay_comm m k x k' y :
  k <> k' -> addOneWay (addOneWay m k x) k' y = addOneWay (addOneWay m k' y) k x.
Proof. intros Hne. rewrite !addOneWay_alter. by apply alter_alter_ne. Qed.

Lemma AddRelation_idem m a b : AddRelation (AddRelation m a b) a b = AddRelation m a b.
Proof.
  unfold AddRelation. destruct (decide (a = b)) as [->|Hne].
  - by rewrite !addOneWay_idem.
  - rewrite (addOneWay_comm (addOneWay m a b) b a a b) by done.
    by rewrite addOneWay_idem, addOneWay_idem.
Qed.

Lemma removeOneWay_absent m k x : x ∉ relatedOf m k -> removeOneWay m k x = m.
Proof.
  intros Hx. unfold removeOneWay, relatedOf in *.
  destruct (m !! k) as [e|] eqn:E; [|reflexivity].
  rewrite RemoveString_absent, setRelated_same by done. by apply insert_id.
Qed.

End MetaIndex.

(** C2. [NeedsEnrichment m id h] is true exactly when the index has no
    entry for [id] or the entry's stored fingerprint differs from [h]; it is
    false for an entry whose stored fingerprint is [h], whatever its tags,
    summary, related list and enrichment time are. *)
Theorem NeedsEnrichment_iff (m : MetaFile) (id h : string) :
  (NeedsEnrichment m id h = true <->
   m !! id = None \/ exists e, m !! id = Some e /\ FileMeta.ContentHash e <> h) /\
  (forall (t : Time) (tags : list string) (summary : string) (related : list string),
     NeedsEnrichment (<[id := FileMeta.mk h t tags summary related]> m) id h = false).
Proof.
  split.
  - unfold NeedsEnrichment. destruct (m !! id) as [e|].
    + destruct (String.eqb_spec (FileMeta.ContentHash e) h) as [Heq|Hne]; simpl.
      * split; [discriminate|]. intros [?|(e' & He' & Hd)]; [discriminate|].
        congruence.
      * split; [|reflexivity]. intros _. right. eauto.
    + split; [auto | reflexivity].
  - intros t tags summary related. unfold NeedsEnrichment.
    rewrite lookup_insert_eq. simpl. by rewrite String.eqb_refl.
Qed.

(** [TestNeedsEnrichment] *)
Example TestNeedsEnrichment :
  let meta : MetaFile :=
    {[ "enriched.md" := FileMeta.mk "abc123" zeroTime [] EmptyString [] ]} in
  NeedsEnrichment meta "new.md" "xyz789" = true /\
  NeedsEnrichment meta "enriched.md" "abc123" = false /\
  NeedsEnrichment meta "enriched.md" "different" = true.
Proof. vm_compute. auto. Qed.

(** [TestBidirectionalRelations] *)
Example TestBidirectionalRelations :
  let m := AddRelation testRelations "a.md" "b.md" in
  relatedOf m "a.md" = ["b.md"] /\ relatedOf m "b.md" = ["a.md"] /\
  relatedOf (RemoveRelation m "a.md" "b.md") "a.md" = [] /\
  relatedOf (RemoveRelation m "a.md" "b.md") "b.md" = [].
Proof. vm_compute. auto. Qed.

(** C4. With entries for both [a] and [b]: after [AddRelation m a b], [b] is
    in [a]'s related list and [a] in [b]'s, an identifier already listed is
    not listed again, and a repeated add changes nothing; after
    [RemoveRelation m a b] neither is in the other's list, and a list that
    did not hold the edge is left as it was.  A side without an entry is
    skipped: it still has no entry, and only the other side is updated. *)
Theorem relation_symmetry (m : MetaFile) (a b : string) :
  (forall ea eb, m !! a = Some ea -> m !! b = Some eb ->
     let m1 := AddRelation m a b in
     let m2 := RemoveRelation m a b in
     ((b ∈ relatedOf m1 a) /\ (a ∈ relatedOf m1 b)) /\
     (count_occ string_dec (relatedOf m1 a) b
        = Nat.max 1 (count_occ string_dec (FileMeta.Related ea) b) /\
      count_occ string_dec (relatedOf m1 b) a
        = Nat.max 1 (count_occ string_dec (FileMeta.Related eb) a)) /\
     AddRelation m1 a b = m1 /\
     ((b ∉ relatedOf m2 a) /\ (a ∉ relatedOf m2 b)) /\
     (b ∉ FileMeta.Related ea -> relatedOf m2 a = FileMeta.Related ea) /\
     (a ∉ FileMeta.Related eb -> relatedOf m2 b = FileMeta.Related eb) /\
     (b ∉ FileMeta.Related ea -> a ∉ FileMeta.Related eb -> m2 = m)) /\
  (m !! a = None ->
     AddRelation m a b !! a = None /\ RemoveRelation m a b !! a = None /\
     AddRelation m a b = addOneWay m b a /\
     RemoveRelation m a b = removeOneWay m b a) /\
  (m !! b = None ->
     AddRelation m a b !! b = None /\ RemoveRelation m a b !! b = None /\
     AddRelation m a b = addOneWay m a b /\
     RemoveRelation m a b = removeOneWay m a b).
Proof.
  split; [|split].
  - intros ea eb Ha Hb m1 m2. subst m1 m2.
    destruct (relatedOf_AddRelation m a b ea eb Ha Hb) as [Ea Eb].
    destruct (relatedOf_RemoveRelation m a b) as [Ra Rb].
    rewrite Ea, Eb, Ra, Rb, (relatedOf_Some _ _ _ Ha), (relatedOf_Some _ _ _ Hb).
    repeat split.
    + apply elem_of_addItem.
    + apply elem_of_addItem.
    + apply count_occ_addItem.
    + apply count_occ_addItem.
    + apply AddRelation_idem.
    + rewrite elem_of_RemoveString. tauto.
    + rewrite elem_of_RemoveString. tauto.
    + apply RemoveString_absent.
    + apply RemoveString_absent.
    + intros Hx Hy. unfold RemoveRelation.
      rewrite (removeOneWay_absent m a b) by (by rewrite (relatedOf_Some _ _ _ Ha)).
      apply removeOneWay_absent. by rewrite (relatedOf_Some _ _ _ Hb).
  - intros Ha. unfold AddRelation, RemoveRelation.
    rewrite (addOneWay_None _ _ _ Ha), (removeOneWay_None _ _ _ Ha).
    repeat split; try reflexivity.
    + apply eq_None_not_Some. rewrite addOneWay_is_Some. by rewrite Ha; intros [? ?].
    + apply eq_None_not_Some. rewrite removeOneWay_is_Some. by rewrite Ha; intros [? ?].
  - intros Hb. unfold AddRelation, RemoveRelation.
    assert (addOneWay m a b !! b = None) as Hb1.
    { apply eq_None_not_Some. rewrite addOneWay_is_Some. by rewrite Hb; intros [? ?]. }
    assert (removeOneWay m a b !! b = None) as Hb2.
    { apply eq_None_not_Some. rewrite removeOneWay_is_Some. by rewrite Hb; intros [? ?]. }
    rewrite (addOneWay_None _ _ _ Hb1), (removeOneWay_None _ _ _ Hb2). done.
Qed.

(** [relation_symmetry] on the index of the test. *)
Lemma relation_symmetry_witness :
  "b.md" ∈ relatedOf (AddRelation testRelations "a.md" "b.md") "a.md" /\
  "a.md" ∈ relatedOf (AddRelation testRelations "a.md" "b.md") "b.md".
Proof.
  destruct (relation_symmetry testRelations "a.md" "b.md") as [H _].
  destruct (H FileMeta.zero FileMeta.zero eq_refl eq_refl) as [H1 _].
  exact H1.
Defined.

(** C10 as stated fails: an entry whose own related list already names it
    twice keeps both occurrences. *)
Lemma self_relation_keeps_duplicates :
  let m : MetaFile :=
    {[ "a.md" := FileMeta.mk EmptyString zeroTime [] EmptyString ["a.md"; "a.md"] ]} in
  is_Some (m !! "a.md") /\
  count_occ string_dec (relatedOf (AddRelation m "a.md" "a.md") "a.md") "a.md" = 2%nat.
Proof. split; [by eexists | reflexivity]. Qed.

(** C10 (amended). For an entry [a], [AddRelation m a a] appends [a] to
    [a]'s own related list when it is absent and leaves the list unchanged
    when it is present (the second insertion is suppressed by the duplicate
    check), so [a] occurs once if it occurred at most once before; no other
    entry is modified, and [a]'s other fields are kept. *)
Theorem self_relation (m : MetaFile) (a : string) (ea : FileMeta.t)
  (Ha : m !! a = Some ea) :
  AddRelation m a a
    = <[a := FileMeta.setRelated (addItem (FileMeta.Related ea) a) ea]> m /\
  (a ∉ FileMeta.Related ea ->
     relatedOf (AddRelation m a a) a = (FileMeta.Related ea ++ [a])%list) /\
  (a ∈ FileMeta.Related ea -> AddRelation m a a = m) /\
  count_occ string_dec (relatedOf (AddRelation m a a) a) a
    = Nat.max 1 (count_occ string_dec (FileMeta.Related ea) a) /\
  (forall k, k <> a -> AddRelation m a a !! k = m !! k).
Proof.
  assert (AddRelation m a a
          = <[a := FileMeta.setRelated (addItem (FileMeta.Related ea) a) ea]> m) as E.
  { unfold AddRelation. rewrite addOneWay_idem. by apply addOneWay_Some. }
  rewrite E. unfold relatedOf. rewrite lookup_insert_eq. simpl.
  repeat split.
  - intros Hn. unfold addItem. apply Contains_false in Hn. by rewrite Hn.
  - intros Hin. rewrite addItem_present, setRelated_same by done. by apply insert_id.
  - apply count_occ_addItem.
  - intros k Hk. by rewrite lookup_insert_ne.
Qed.

(** [self_relation] on an entry with an empty related list. *)
Lemma self_relation_witness :
  relatedOf (AddRelation testRelations "a.md" "a.md") "a.md" = ["a.md"].
Proof.
  destruct (self_relation testRelations "a.md" FileMeta.zero eq_refl) as (_ & H & _).
  apply H. simpl. inversion 1.
Defined.

(** C8. [UpdateFromNote] stores the note's fingerprint, tags, summary and
    related list under the note's base name and keeps the entry's
    [EnrichedAt] (the zero time when there was no entry); it changes no other
    entry.  [UpdateFromNoteWithEnrichment] stores the same fields and the
    current time in [EnrichedAt]. *)
Theorem UpdateFromNote_keeps_EnrichedAt `{Env} (m : MetaFile) (note : Note.t) (now : Time) :
  let k := Base (Note.Filename note) in
  let fm := Note.Frontmatter note in
  let before := match m !! k with
                | Some e => FileMeta.EnrichedAt e
                | None => zeroTime
                end in
  UpdateFromNote m note !! k
    = Some (FileMeta.mk (ContentHash note) before (Frontmatter.Tags fm)
              (Frontmatter.Summary fm) (Frontmatter.Related fm)) /\
  (forall k', k' <> k -> UpdateFromNote m note !! k' = m !! k') /\
  UpdateFromNoteWithEnrichment now m note !! k
    = Some (FileMeta.mk (ContentHash note) now (Frontmatter.Tags fm)
              (Frontmatter.Summary fm) (Frontmatter.Related fm)) /\
  (forall k', k' <> k -> UpdateFromNoteWithEnrichment now m note !! k' = m !! k').
Proof.
  intros k fm before. unfold UpdateFromNoteWithEnrichment, UpdateFromNote.
  fold k. fold fm. repeat split.
  - rewrite lookup_insert_eq. subst before. by destruct (m !! k).
  - intros k' Hk. by rewrite lookup_insert_ne.
  - by rewrite lookup_alter_eq, lookup_insert_eq.
  - intros k' Hk. by rewrite lookup_alter_ne, lookup_insert_ne.
Qed.

Section Reconcile.

Variable fileExists : string -> bool.

Lemma removeDeleted_lookup (filenames : list string) (m : MetaFile) (k : string) :
  removeDeleted fileExists false filenames m !! k =
  if decide (k ∈ filenames /\ fileExists k = false) then None else m !! k.
Proof.
  unfold removeDeleted. revert m.
  induction filenames as [|f fs IH]; intros m; cbn [fold_left].
  - case_decide as Hd; [|done]. destruct Hd as [Hin _]. inversion Hin.
  - rewrite IH. destruct (fileExists f) eqn:Ef; simpl.
    + apply decide_ext. rewrite elem_of_cons. split.
      * intros [? ?]. split; [by right | done].
      * intros [[->|?] ?]; [congruence | done].
    + destruct (decide (k = f)) as [->|Hne].
      * assert (f ∈ f :: fs /\ fileExists f = false) as Hd
          by (split; [by left | done]).
        rewrite lookup_delete_eq, (decide_True _ _ Hd). by case_decide.
      * rewrite lookup_delete_ne by done. apply decide_ext.
        rewrite elem_of_cons. split; [intros [? ?]; split; [by right | done]|].
        intros [[->|?] ?]; [congruence | done].
Qed.

Lemma removeDeleted_dryRun (filenames : list string) (m : MetaFile) :
  removeDeleted fileExists true filenames m = m.
Proof.
  unfold removeDeleted. induction filenames as [|f fs IH]; simpl; [done|].
  by destruct (fileExists f).
Qed.

(** C9. When the range yields the keys of the index, in any order, the
    removal loop of [CmdSync] (not a dry run) deletes exactly the entries
    whose file does not exist, and every entry whose file exists stays with
    the contents it had. *)
Theorem removeDeleted_exact (filenames : list string) (m : MetaFile)
  (Hkeys : forall k, k ∈ filenames <-> is_Some (m !! k)) :
  forall k,
    removeDeleted fileExists false filenames m !! k
    = if fileExists k then m !! k else None.
Proof.
  intros k. rewrite removeDeleted_lookup.
  destruct (fileExists k) eqn:Ek.
  - rewrite decide_False; [done|]. intros [_ ?]. congruence.
  - case_decide as Hd; [done|].
    destruct (m !! k) as [e|] eqn:E; [|done].
    exfalso. apply Hd. split; [|done]. apply Hkeys. by rewrite E.
Qed.

End Reconcile.

(** [removeDeleted_exact] on two entries, one of them without its file. *)
Lemma removeDeleted_exact_witness :
  let m : MetaFile := {[ "a.md" := FileMeta.zero; "b.md" := FileMeta.zero ]} in
  removeDeleted (String.eqb "a.md") false ["b.md"; "a.md"] m !! "a.md" = m !! "a.md" /\
  removeDeleted (String.eqb "a.md") false ["b.md"; "a.md"] m !! "b.md" = None.
Proof.
  intros m.
  assert (forall k, k ∈ ["b.md"; "a.md"] <-> is_Some (m !! k)) as Hkeys.
  { intros k. subst m. rewrite !elem_of_cons, elem_of_nil.
    rewrite <- elem_of_dom, dom_insert_L, dom_singleton_L.
    rewrite elem_of_union, !elem_of_singleton. tauto. }
  split.
  - exact (removeDeleted_exact (String.eqb "a.md") ["b.md"; "a.md"] m Hkeys "a.md").
  - exact (removeDeleted_exact (String.eqb "a.md") ["b.md"; "a.md"] m Hkeys "b.md").
Defined.

(** ** The neighbourhood traversal *)

Section Traversal.

Variables (dir : NotesDir) (m : MetaFile).

Lemma extends_refl w : extends w w.
Proof. intros Hw. split; [done|]. by exists []. Qed.

Lemma extends_trans w1 w2 w3 : extends w1 w2 -> extends w2 w3 -> extends w1 w3.
Proof.
  intros H12 H23 H1. destruct (H12 H1) as [H2 [n1 E1]].
  destruct (H23 H2) as [H3 [n2 E2]]. split; [done|].
  exists (n2 ++ n1)%list. by rewrite E2, E1, app_assoc.
Qed.

Lemma extends_mark f w : f ∉ visited w -> extends w (mark f w).
Proof.
  intros Hf [Hnd Hiff]. split; [split|]; simpl.
  - apply NoDup_cons. split; [by rewrite Hiff | done].
  - intros x. rewrite elem_of_cons, elem_of_union, elem_of_singleton, Hiff. done.
  - by exists [f].
Qed.

Lemma walk_ok_init : walk_ok (mkWalk ∅ []).
Proof.
  split; simpl; [apply NoDup_nil_2|].
  intros x. rewrite elem_of_nil. set_solver.
Qed.

Lemma buildChildren_extends step related w :
  (forall rel w, extends w (snd (step rel w))) ->
  extends w (snd (buildChildren step related w)).
Proof.
  intros Hstep. revert w. induction related as [|rel rest IH]; intros w; simpl.
  - apply extends_refl.
  - specialize (Hstep rel w). destruct (step rel w) as [child w1]. simpl in Hstep.
    specialize (IH w1). destruct (buildChildren step rest w1) as [children w2].
    simpl in *. by eapply extends_trans.
Qed.

Lemma buildGraph_extends n f w : extends w (snd (buildGraph dir m n f w)).
Proof.
  revert f w. induction n as [|n IH]; intros f w; simpl.
  - apply extends_refl.
  - case_decide as Hv; simpl; [apply extends_refl|].
    pose proof (extends_mark f w Hv) as Hm.
    destruct (m !! f) as [fileMeta|]; simpl; [|done].
    pose proof (buildChildren_extends (buildGraph dir m n)
                  (FileMeta.Related fileMeta) (mark f w) IH) as Hc.
    destruct (buildChildren _ _ _) as [children w2]. simpl in *.
    by eapply extends_trans.
Qed.

Lemma printLoop_extends expand related prefix w :
  (forall rel childPrefix w, extends w (snd (expand rel childPrefix w))) ->
  extends w (snd (printLoop dir m expand related prefix w)).
Proof.
  intros Hexp. revert w. induction related as [|rel rest IH]; intros w.
  - apply extends_refl.
  - cbn [printLoop].
    set (cp := if match rest with [] => true | _ => false end
               then (prefix ++ "    ")%string else (prefix ++ "│   ")%string).
    specialize (Hexp rel cp w). destruct (expand rel cp w) as [below w1].
    specialize (IH w1). destruct (printLoop dir m expand rest prefix w1) as [lines w2].
    simpl in *. by eapply extends_trans.
Qed.

Lemma printTree_extends n related prefix w :
  extends w (snd (printTree dir m n related prefix w)).
Proof.
  revert related prefix w. induction n as [|n IH]; intros related prefix w.
  - simpl. apply printLoop_extends. intros; apply extends_refl.
  - simpl. apply printLoop_extends. intros rel cp w'.
    case_decide as Hv; [apply extends_refl|].
    pose proof (extends_mark rel w' Hv) as Hm.
    destruct (m !! rel) as [fileMeta|]; [|done].
    destruct (FileMeta.Related fileMeta) as [|r0 rs]; [done|].
    destruct (filter _ _) as [|u us]; [done|].
    eapply extends_trans; [exact Hm | apply IH].
Qed.






End Traversal.

(** ** The shape of the trees *)

Section TreeShape.

Variables (dir : NotesDir) (m : MetaFile).



Lemma relatedCount_app (l k : list string) :
  relatedCount m (l ++ k) = (relatedCount m l + relatedCount m k)%nat.
Proof. unfold relatedCount. by rewrite map_app, list_sum_app. Qed.

Lemma wrapInt_small (z : Z) : minInt <= z <= maxInt -> wrapInt z = z.
Proof.
  unfold wrapInt, minInt, maxInt. intros Hz. rewrite Z.mod_small; lia.
Qed.

(** The cases of [buildGraph] and of the loop over the related notes. *)
Lemma buildGraph_cases
    (P : nat -> string -> walk -> graphNode -> walk -> Prop)
    (Q : nat -> list string -> walk -> list graphNode -> walk -> Prop) :
  (forall f w, P 0%nat f w (GraphNode f (getSummary dir m f) []) w) ->
  (forall n f w, f ∈ visited w ->
     P (S n) f w (GraphNode f (getSummary dir m f) []) w) ->
  (forall n f w, f ∉ visited w -> m !! f = None ->
     P (S n) f w (GraphNode f (getSummary dir m f) []) (mark f w)) ->
  (forall n f w fileMeta children w', f ∉ visited w -> m !! f = Some fileMeta ->
     Q n (FileMeta.Related fileMeta) (mark f w) children w' ->
     P (S n) f w (GraphNode f (getSummary dir m f) children) w') ->
  (forall n w, Q n [] w [] w) ->
  (forall n rel rest w child w1 children w2,
     P n rel w child w1 -> Q n rest w1 children w2 ->
     Q n (rel :: rest) w (child :: children) w2) ->
  forall n,
    (forall f w, P n f w (fst (buildGraph dir m n f w)) (snd (buildGraph dir m n f w))) /\
    (forall related w,
       Q n related w (fst (buildChildren (buildGraph dir m n) related w))
         (snd (buildChildren (buildGraph dir m n) related w))).
Proof.
  intros H0 Hvis Hnone Hsome Qnil Qcons.
  assert (forall n,
    (forall f w, P n f w (fst (buildGraph dir m n f w)) (snd (buildGraph dir m n f w))) ->
    forall related w,
      Q n related w (fst (buildChildren (buildGraph dir m n) related w))
        (snd (buildChildren (buildGraph dir m n) related w))) as HQ.
  { intros n HP related. induction related as [|rel rest IH]; intros w; cbn [buildChildren].
    - apply Qnil.
    - specialize (HP rel w). destruct (buildGraph dir m n rel w) as [child w1].
      specialize (IH w1).
      destruct (buildChildren (buildGraph dir m n) rest w1) as [children w2].
      simpl in *. by eapply Qcons. }
  intros n. induction n as [|n [IHP IHQ]].
  - split; [|apply HQ]; intros f w; simpl; apply H0.
  - assert (forall f w,
      P (S n) f w (fst (buildGraph dir m (S n) f w)) (snd (buildGraph dir m (S n) f w)))
      as HP.
    { intros f w. simpl. case_decide as Hv; [by apply Hvis|].
      destruct (m !! f) as [fileMeta|] eqn:E.
      - specialize (IHQ (FileMeta.Related fileMeta) (mark f w)).
        destruct (buildChildren (buildGraph dir m n) (FileMeta.Related fileMeta) (mark f w))
          as [children w'].
        simpl in *. by eapply Hsome.
      - simpl. by apply Hnone. }
    split; [exact HP | by apply HQ].
Qed.

(** The cases of the guarded block of [printTree] and of its loop. *)
Lemma printTree_cases
    (E : nat -> string -> walk -> list treeLine -> walk -> Prop)
    (R : nat -> list string -> walk -> list treeLine -> walk -> Prop) :
  (forall rel w, E 0%nat rel w [] w) ->
  (forall n rel w, rel ∈ visited w -> E (S n) rel w [] w) ->
  (forall n rel w, rel ∉ visited w ->
     filter (fun r => r ∉ visited (mark rel w)) (relatedOf m rel) = [] ->
     E (S n) rel w [] (mark rel w)) ->
  (forall n rel w lines w', rel ∉ visited w ->
     filter (fun r => r ∉ visited (mark rel w)) (relatedOf m rel) <> [] ->
     R n (filter (fun r => r ∉ visited (mark rel w)) (relatedOf m rel)) (mark rel w)
       lines w' ->
     E (S n) rel w lines w') ->
  (forall n w, R n [] w [] w) ->
  (forall n rel rest w below w1 lines w2 prefix connector summary,
     E n rel w below w1 -> R n rest w1 lines w2 ->
     R n (rel :: rest) w (TreeLine prefix connector rel summary below :: lines) w2) ->
  forall n related prefix w,
    R n related w (fst (printTree dir m n related prefix w))
      (snd (printTree dir m n related prefix w)).
Proof.
  intros E0 Evis Emark Erec Rnil Rcons.
  assert (forall n expand,
    (forall rel cp w, E n rel w (fst (expand rel cp w)) (snd (expand rel cp w))) ->
    forall related prefix w,
      R n related w (fst (printLoop dir m expand related prefix w))
        (snd (printLoop dir m expand related prefix w))) as HR.
  { intros n expand HE related prefix. induction related as [|rel rest IH]; intros w.
    - apply Rnil.
    - cbn [printLoop].
      set (cp := if match rest with [] => true | _ => false end
                 then (prefix ++ "    ")%string else (prefix ++ "│   ")%string).
      specialize (HE rel cp w). destruct (expand rel cp w) as [below w1].
      specialize (IH w1). destruct (printLoop dir m expand rest prefix w1) as [lines w2].
      simpl in *. by eapply Rcons. }
  intros n. induction n as [|n IH]; intros related prefix w.
  - simpl. apply HR. intros. apply E0.
  - simpl. apply HR. intros rel cp w'.
    case_decide as Hv; [by apply Evis|].
    unfold relatedOf in Emark, Erec.
    specialize (Emark n rel w' Hv). specialize (Erec n rel w').
    destruct (m !! rel) as [fileMeta|]; [|by apply Emark].
    destruct (FileMeta.Related fileMeta) as [|r0 rs] eqn:Er; [by apply Emark|].
    change ({[rel]} ∪ visited w') with (visited (mark rel w')).
    destruct (filter (fun r => r ∉ visited (mark rel w')) (r0 :: rs)) as [|u us] eqn:Ef;
      [by apply Emark|].
    apply Erec; [done | done | apply IH].
Qed.

(** *** The JSON tree *)

(** A note has children at one place of the tree at most; the notes with
    children were not visited before the call and are visited after it. *)
Lemma buildGraph_once (n : nat) (f : string) (w : walk) :
  visited w ⊆ visited (snd (buildGraph dir m n f w)) /\
  NoDup (expandedNodes (fst (buildGraph dir m n f w))) /\
  forall x, x ∈ expandedNodes (fst (buildGraph dir m n f w)) ->
            (x ∉ visited w) /\ x ∈ visited (snd (buildGraph dir m n f w)).
Proof.
  revert f w.
  refine (proj1 (buildGraph_cases
    (fun _ _ w g w' =>
       visited w ⊆ visited w' /\ NoDup (expandedNodes g) /\
       forall x, x ∈ expandedNodes g -> (x ∉ visited w) /\ x ∈ visited w')
    (fun _ _ w children w' =>
       visited w ⊆ visited w' /\ NoDup (flat_map expandedNodes children) /\
       forall x, x ∈ flat_map expandedNodes children -> (x ∉ visited w) /\ x ∈ visited w')
    _ _ _ _ _ _ n)); clear n.
  - intros f w. simpl. split; [done|]. split; [constructor | set_solver].
  - intros n f w Hv. simpl. split; [done|]. split; [constructor | set_solver].
  - intros n f w Hv E. simpl. split; [set_solver|]. split; [constructor | set_solver].
  - intros n f w fileMeta children w' Hv E (HM & HN & HX). simpl in HM, HX.
    split; [set_solver|].
    destruct children as [|c cs]; [simpl; split; [constructor | set_solver]|].
    cbn [expandedNodes]. split.
    + apply NoDup_cons. split; [|done]. intros Hin. apply HX in Hin. set_solver.
    + intros x [->|Hx]%elem_of_cons; [set_solver|]. apply HX in Hx. set_solver.
  - intros n w. simpl. split; [done|]. split; [constructor | set_solver].
  - intros n rel rest w child w1 children w2 (M1 & N1 & X1) (M2 & N2 & X2).
    cbn [flat_map]. split; [set_solver|]. split.
    + apply NoDup_app. split; [done|]. split; [|done].
      intros x Hx1 Hx2. apply X1 in Hx1. apply X2 in Hx2. set_solver.
    + intros x [Hx|Hx]%elem_of_app; [apply X1 in Hx | apply X2 in Hx]; set_solver.
Qed.

(** Every node that has children has its note's related list as children,
    so the notes with children account for all nodes but the root. *)
Lemma buildGraph_size (n : nat) (f : string) (w : walk) :
  graphSize (fst (buildGraph dir m n f w))
  = S (relatedCount m (expandedNodes (fst (buildGraph dir m n f w)))).
Proof.
  revert f w.
  refine (proj1 (buildGraph_cases
    (fun _ _ _ g _ => graphSize g = S (relatedCount m (expandedNodes g)))
    (fun _ related _ children _ =>
       length children = length related /\
       list_sum (map graphSize children)
       = (length children + relatedCount m (flat_map expandedNodes children))%nat)
    _ _ _ _ _ _ n)); clear n.
  - done.
  - done.
  - done.
  - intros n f w fileMeta children w' Hv E [Hlen Hsum].
    destruct children as [|c cs]; [done|].
    cbn [graphSize expandedNodes]. rewrite Hsum. f_equal.
    unfold relatedCount at 2. cbn [map list_sum]. fold (relatedCount m).
    unfold relatedOf at 1. rewrite E, <- Hlen. done.
  - done.
  - intros n rel rest w child w1 children w2 Hc [Hlen Hsum].
    split; [simpl; by rewrite Hlen|].
    change (list_sum (map graphSize (child :: children)))
      with (graphSize child + list_sum (map graphSize children))%nat.
    cbn [flat_map length]. rewrite relatedCount_app, Hc, Hsum. lia.
Qed.


(** *** The text tree *)

Lemma printTree_once (n : nat) (related : list string) (prefix : string) (w : walk) :
  visited w ⊆ visited (snd (printTree dir m n related prefix w)) /\
  NoDup (flat_map expandedLines (fst (printTree dir m n related prefix w))) /\
  forall x, x ∈ flat_map expandedLines (fst (printTree dir m n related prefix w)) ->
            (x ∉ visited w) /\ x ∈ visited (snd (printTree dir m n related prefix w)).
Proof.
  revert related prefix w.
  refine (printTree_cases
    (fun _ rel w below w' =>
       visited w ⊆ visited w' /\ NoDup (flat_map expandedLines below) /\
       (forall x, x ∈ flat_map expandedLines below ->
          (x ∉ visited w) /\ x <> rel /\ x ∈ visited w') /\
       (below <> [] -> (rel ∉ visited w) /\ rel ∈ visited w'))
    (fun _ _ w lines w' =>
       visited w ⊆ visited w' /\ NoDup (flat_map expandedLines lines) /\
       forall x, x ∈ flat_map expandedLines lines -> (x ∉ visited w) /\ x ∈ visited w')
    _ _ _ _ _ _ n); clear n.
  - intros rel w. simpl. split; [done|]. split; [constructor|].
    split; [set_solver | done].
  - intros n rel w Hv. simpl. split; [done|]. split; [constructor|].
    split; [set_solver | done].
  - intros n rel w Hv Hf. simpl. split; [set_solver|]. split; [constructor|].
    split; [set_solver | done].
  - intros n rel w lines w' Hv Hf (HM & HN & HX). simpl in HM, HX.
    split; [set_solver|]. split; [done|]. split; [|set_solver].
    intros x Hx. apply HX in Hx. set_solver.
  - intros n w. simpl. split; [done|]. split; [constructor | set_solver].
  - intros n rel rest w below w1 lines w2 prefix connector summary
      (M1 & N1 & X1 & B1) (M2 & N2 & X2).
    split; [set_solver|]. cbn [flat_map].
    assert (forall x, x ∈ expandedLines (TreeLine prefix connector rel summary below) ->
              (x ∉ visited w) /\ x ∈ visited w1) as X1'.
    { destruct below as [|b bs]; [simpl; set_solver|].
      cbn [expandedLines]. intros x [->|Hx]%elem_of_cons; [by apply B1|].
      apply X1 in Hx. tauto. }
    split.
    + apply NoDup_app. split; [|split; [|done]].
      * destruct below as [|b bs]; [constructor|]. cbn [expandedLines].
        apply NoDup_cons. split; [|done]. intros Hin. apply X1 in Hin. tauto.
      * intros x Hx1 Hx2. apply X1' in Hx1. apply X2 in Hx2. tauto.
    + intros x [Hx|Hx]%elem_of_app; [apply X1' in Hx | apply X2 in Hx]; set_solver.
Qed.

Lemma printTree_size (n : nat) (related : list string) (prefix : string) (w : walk) :
  (list_sum (map linesSize (fst (printTree dir m n related prefix w)))
   <= length related
      + relatedCount m (flat_map expandedLines (fst (printTree dir m n related prefix w))))%nat.
Proof.
  revert related prefix w.
  assert (forall n related prefix w,
    length (fst (printTree dir m n related prefix w)) = length related /\
    (list_sum (map linesSize (fst (printTree dir m n related prefix w)))
     <= length related
        + relatedCount m
            (flat_map expandedLines (fst (printTree dir m n related prefix w))))%nat)
    as Hall; [|intros; by apply Hall].
  clear n. intros n.
  refine (printTree_cases
    (fun _ rel _ below _ =>
       below <> [] ->
       (list_sum (map linesSize below)
        <= length (relatedOf m rel) + relatedCount m (flat_map expandedLines below))%nat)
    (fun _ related _ lines _ =>
       length lines = length related /\
       (list_sum (map linesSize lines)
        <= length related + relatedCount m (flat_map expandedLines lines))%nat)
    _ _ _ _ _ _ n); clear n.
  - done.
  - done.
  - done.
  - intros n rel w lines w' Hv Hf [Hlen Hsum] _.
    pose proof (length_filter (fun r => r ∉ visited (mark rel w)) (relatedOf m rel)). lia.
  - intros n w. simpl. split; [done | lia].
  - intros n rel rest w below w1 lines w2 prefix connector summary HE [Hlen Hsum].
    split; [simpl; by rewrite Hlen|].
    change (list_sum (map linesSize (TreeLine prefix connector rel summary below :: lines)))
      with (S (list_sum (map linesSize below)) + list_sum (map linesSize lines))%nat.
    cbn [flat_map length]. rewrite relatedCount_app.
    destruct below as [|b bs]; [simpl; lia|].
    specialize (HE ltac:(done)).
    change (relatedCount m (expandedLines (TreeLine prefix connector rel summary (b :: bs))))
      with (length (relatedOf m rel)
            + relatedCount m (flat_map expandedLines (b :: bs)))%nat.
    lia.
Qed.


End TreeShape.

Example cycleGraph_related :
  relatedOf cycleGraph "A" = ["B"; "C"] /\
  relatedOf cycleGraph "B" = ["A"; "C"] /\
  relatedOf cycleGraph "C" = ["B"; "A"].
Proof. vm_compute. auto. Qed.

Lemma extends_fresh (w w' : walk) (new : list string) :
  walk_ok w -> walk_ok w' -> expanded w' = (new ++ expanded w)%list ->
  forall x, x ∈ new -> x ∉ visited w.
Proof.
  intros [_ Hiff] [Hnd _] E x Hx. rewrite E in Hnd.
  apply NoDup_app in Hnd as (_ & Hdisj & _). rewrite <- Hiff. by apply Hdisj.
Qed.

(** C6 as stated fails on its example: on three mutually related notes at
    depth 5 the tree printed has 4 nodes in text form (the third note is
    listed under the second and again under the root) and 7 in JSON form,
    not 3. *)
Lemma cycle_tree_is_not_three_nodes :
  outputSize <$> showNeighborhood exampleDir cycleGraph "A" 5 false = Some 4%nat /\
  outputSize <$> showNeighborhood exampleDir cycleGraph "A" 5 true = Some 7%nat /\
  outputSize <$> showNeighborhood exampleDir cycleGraph "A" 5 false <> Some 3%nat /\
  outputSize <$> showNeighborhood exampleDir cycleGraph "A" 5 true <> Some 3%nat.
Proof. vm_compute. repeat split; congruence. Qed.

(** C6 (amended). For every index, root and depth both traversals return a
    tree, and in it no identifier is expanded more than once: no two nodes
    of the JSON tree that have children carry the same identifier, and no
    two lines of the text tree that have lines nested below them name the
    same note, nor does any of them name the root.  Hence, whatever the
    depth, the JSON tree has one node more than the related notes of the
    distinct identifiers expanded in it, and the text tree has no more
    lines than the related notes of the root and of the distinct notes
    expanded in it.  An identifier already visited can still be listed
    again as a leaf: on three mutually related notes at depth 5 each note is
    expanded once, and the tree has 4 nodes in text form and 7 in JSON
    form. *)
Theorem neighborhood_expands_once (dir : NotesDir) (m : MetaFile) (root : string) (depth : Z) :
  let json := fst (neighborhoodJSON dir m root depth) in
  let text := fst (neighborhoodText dir m root depth) in
  NoDup (expandedNodes json) /\
  NoDup (root :: flat_map expandedLines text) /\
  graphSize json = S (relatedCount m (expandedNodes json)) /\
  (list_sum (map linesSize text)
   <= relatedCount m (root :: flat_map expandedLines text))%nat /\
  expandedNodes (fst (neighborhoodJSON exampleDir cycleGraph "A" 5)) = ["A"; "B"; "C"] /\
  showNeighborhood exampleDir cycleGraph "A" 5 false
    = Some (OutText "A" EmptyString
              [ TreeLine EmptyString "├── " "B" EmptyString
                  [ TreeLine "│   " "└── " "C" EmptyString [] ];
                TreeLine EmptyString "└── " "C" EmptyString [] ]) /\
  outputSize <$> showNeighborhood exampleDir cycleGraph "A" 5 true = Some 7%nat.
Proof.
  intros json text. subst json text.
  split; [apply buildGraph_once|]. split; [|split; [apply buildGraph_size|split]].
  - unfold neighborhoodText. destruct (m !! root) as [fileMeta|];
      [|apply NoDup_cons; split; [inversion 1 | constructor]].
    destruct (printTree_once dir m (Z.to_nat (wrapInt (depth - 1)))
                (FileMeta.Related fileMeta) EmptyString (mark root (mkWalk ∅ [])))
      as (_ & Hnd & Hx).
    apply NoDup_cons. split; [|done]. intros Hin. apply Hx in Hin as [Hin _].
    apply Hin. simpl. set_solver.
  - change (relatedCount m (root :: ?l))
      with (length (relatedOf m root) + relatedCount m l)%nat.
    unfold neighborhoodText, relatedOf. destruct (m !! root) as [fileMeta|]; [|simpl; lia].
    apply printTree_size.
  - vm_compute. auto.
Qed.




(** At the least [int] the text form wraps around: [depth - 1] is the
    greatest [int], and [chainGraph] is printed in full, as at depth 2. *)
Example neighborhoodText_least_int :
  fst (neighborhoodText exampleDir chainGraph "A" minInt)
  = fst (neighborhoodText exampleDir chainGraph "A" 2) /\
  fst (neighborhoodText exampleDir chainGraph "A" minInt)
  <> fst (neighborhoodText exampleDir chainGraph "A" 1).
Proof.
  assert (exists k, Z.to_nat (wrapInt (minInt - 1)) = S (S k)) as [k Hk].
  { exists (Z.to_nat (maxInt - 2)).
    change (wrapInt (minInt - 1)) with maxInt. unfold maxInt. lia. }
  unfold neighborhoodText at 1 3. rewrite Hk. clear Hk.
  vm_compute. split; [reflexivity | discriminate].
Qed.

(** ** The content fingerprint *)

Lemma length_be_bytes (n : nat) (x : Z) : length (Sha256.be_bytes n x) = n.
Proof. unfold Sha256.be_bytes. by rewrite List.length_map, List.length_rev, List.length_seq. Qed.

Lemma length_Sum256 (msg : list Z) : length (Sha256.Sum256 msg) = 32%nat.
Proof.
  unfold Sha256.Sum256, Sha256.digest.
  rewrite !List.length_app, !length_be_bytes. reflexivity.
Qed.

Lemma digit_isHex (n : Z) : isHexDigit (Hex.digit n) = true.
Proof.
  unfold Hex.digit. generalize (Z.to_nat n). intros k.
  do 16 (destruct k as [|k]; [reflexivity|]). reflexivity.
Qed.

Lemma length_EncodeToString (src : list Z) :
  String.length (Hex.EncodeToString src) = (2 * length src)%nat.
Proof. induction src as [|v rest IH]; simpl; [reflexivity|]. rewrite IH. lia. Qed.

Lemma EncodeToString_isHex (src : list Z) :
  allChars isHexDigit (Hex.EncodeToString src) = true.
Proof.
  induction src as [|v rest IH]; [reflexivity|].
  cbn [Hex.EncodeToString allChars]. by rewrite !digit_isHex, IH.
Qed.

Lemma length_sliceTo (n : nat) (s : string) :
  String.length (sliceTo n s) = Nat.min n (String.length s).
Proof.
  revert s. induction n as [|n IH]; intros [|c s]; simpl; try reflexivity.
  by rewrite IH.
Qed.

Lemma allChars_sliceTo (p : ascii -> bool) (n : nat) (s : string) :
  allChars p s = true -> allChars p (sliceTo n s) = true.
Proof.
  revert s. induction n as [|n IH]; intros [|c s]; simpl; try reflexivity.
  intros [Hc Hs]%andb_true_iff. by rewrite Hc, IH.
Qed.

(** C3. The fingerprint depends on the body alone: notes with equal bodies
    have equal fingerprints whatever their headers; every fingerprint is 12
    hexadecimal characters; and on the tested inputs a different body gives
    a different fingerprint, also when one character changes. *)
Theorem ContentHash_body_only :
  (forall n1 n2 : Note.t, Note.Content n1 = Note.Content n2 -> ContentHash n1 = ContentHash n2) /\
  (forall n : Note.t,
     String.length (ContentHash n) = 12%nat /\
     allChars isHexDigit (ContentHash n) = true) /\
  ContentHash (testNote ["tag1"] "Summary 1" "Same content")
    = ContentHash (testNote ["different"; "tags"] "Different summary" "Same content") /\
  ContentHash (testNote [] EmptyString "Some content here")
    <> ContentHash (testNote [] EmptyString "Different content") /\
  ContentHash (testNote [] EmptyString "Some content here")
    <> ContentHash (testNote [] EmptyString "Some content herE").
Proof.
  split; [|split; [|split; [|split]]].
  - intros n1 n2 E. unfold ContentHash. by rewrite E.
  - intros n. unfold ContentHash. split.
    + rewrite length_sliceTo, length_EncodeToString, length_Sum256. reflexivity.
    + apply allChars_sliceTo, EncodeToString_isHex.
  - reflexivity.
  - vm_compute. congruence.
  - vm_compute. congruence.
Qed.

(** [ContentHash_body_only] on two notes with one body. *)
Lemma ContentHash_body_only_witness :
  ContentHash (testNote ["tag1"] "Summary 1" "Same content")
  = ContentHash (testNote [] EmptyString "Same content").
Proof.
  destruct ContentHash_body_only as [H _]. apply H. reflexivity.
Defined.

(** The SHA-256 test vectors of FIPS 180. *)
Example Sum256_vectors :
  Hex.EncodeToString (Sha256.Sum256 (bytesOf "abc"))
  = "ba7816bf8f01cfea414140de5dae2223b00361a396177a9cb410ff61f20015ad" /\
  Hex.EncodeToString
    (Sha256.Sum256 (bytesOf "abcdbcdecdefdefgefghfghighijhijkijkljklmklmnlmnomnopnopq"))
  = "248d6a61d20638b8e5c026930c3e6039a33ce45964ff2167f6ecedd419db06c1".
Proof. vm_compute. auto. Qed.

Example ContentHash_values :
  ContentHash (testNote [] EmptyString EmptyString) = "e3b0c44298fc" /\
  ContentHash (testNote [] EmptyString "abc") = "ba7816bf8f01" /\
  ContentHash (testNote [] EmptyString "Some content here") = "00e43534d0a8" /\
  ContentHash (testNote [] EmptyString "Different content") = "eb976165ceb7".
Proof. vm_compute. auto. Qed.

(** ** Facts on the string functions *)

Section StringFacts.

#[local] Arguments String.append !s1 s2 : simpl nomatch.

Implicit Types (s t p sub : string) (c : ascii) (i j n : nat).

Lemma str_app_assoc s t p : ((s ++ t) ++ p = s ++ (t ++ p))%string.
Proof. induction s as [|c s IH]; simpl; [reflexivity|]. by rewrite IH. Qed.

Lemma str_app_nil_r s : (s ++ EmptyString = s)%string.
Proof. induction s as [|c s IH]; simpl; [reflexivity|]. by rewrite IH. Qed.

Lemma str_length_app s t : String.length (s ++ t) = (String.length s + String.length t)%nat.
Proof. induction s as [|c s IH]; simpl; [reflexivity|]. by rewrite IH. Qed.

Lemma HasPrefix_iff s p : HasPrefix s p = true <-> exists t, s = (p ++ t)%string.
Proof.
  revert s. induction p as [|c p IH]; intros s; simpl.
  - split; [intros _; by exists s | reflexivity].
  - destruct s as [|d s].
    + split; [discriminate | intros [t Ht]; discriminate].
    + destruct (Ascii.eqb_spec c d) as [->|Hne].
      * rewrite IH. split; intros [t Ht]; exists t; congruence.
      * split; [discriminate | intros [t Ht]; congruence].
Qed.

Lemma HasPrefix_app p s : HasPrefix (p ++ s) p = true.
Proof. apply HasPrefix_iff. by exists s. Qed.

Lemma sliceFrom_app p s : sliceFrom (String.length p) (p ++ s) = s.
Proof. induction p as [|c p IH]; simpl; [reflexivity | exact IH]. Qed.

Lemma sliceTo_app p s : sliceTo (String.length p) (p ++ s) = p.
Proof. induction p as [|c p IH]; simpl; [reflexivity | by rewrite IH]. Qed.

Lemma slice_split n s : s = (sliceTo n s ++ sliceFrom n s)%string.
Proof.
  revert s. induction n as [|n IH]; intros [|c s]; simpl; try reflexivity.
  by rewrite <- IH.
Qed.

Lemma length_sliceTo_le n s : (n <= String.length s)%nat -> String.length (sliceTo n s) = n.
Proof. intros H. rewrite length_sliceTo. lia. Qed.

Lemma sliceFrom_sliceFrom i j s : sliceFrom i (sliceFrom j s) = sliceFrom (j + i) s.
Proof.
  revert s. induction j as [|j IH]; intros s; simpl; [reflexivity|].
  destruct s as [|c s]; [by destruct i | apply IH].
Qed.

(** [Index] returns the first position at which [sub] occurs. *)
Lemma Index_Some s sub i :
  Index s sub = Some i ->
  (i <= String.length s)%nat /\
  HasPrefix (sliceFrom i s) sub = true /\
  forall j, (j < i)%nat -> HasPrefix (sliceFrom j s) sub = false.
Proof.
  revert i. induction s as [|c s IH]; intros i; simpl Index.
  - destruct (HasPrefix EmptyString sub) eqn:E; [|discriminate].
    intros [= <-]. split; [done|]. split; [done|]. intros j Hj. lia.
  - destruct (HasPrefix (String c s) sub) eqn:E.
    + intros [= <-]. split; [simpl; lia|]. split; [done|]. intros j Hj. lia.
    + destruct (Index s sub) as [k|] eqn:Ek; [|discriminate].
      simpl. intros [= <-]. destruct (IH k eq_refl) as (Hle & Hp & Hmin).
      split; [simpl; lia|]. split; [done|].
      intros [|j] Hj; [done|]. simpl. apply Hmin. lia.
Qed.

Lemma Index_None s sub j : Index s sub = None -> HasPrefix (sliceFrom j s) sub = false.
Proof.
  revert j. induction s as [|c s IH]; intros j; simpl Index.
  - destruct (HasPrefix EmptyString sub) eqn:E; [discriminate|].
    intros _. by destruct j.
  - destruct (HasPrefix (String c s) sub) eqn:E; [discriminate|].
    destruct (Index s sub) as [k|] eqn:Ek; [discriminate|].
    intros _. destruct j as [|j]; [done|]. simpl. by apply IH.
Qed.

Lemma Index_prefix s sub : HasPrefix s sub = true -> Index s sub = Some 0%nat.
Proof. intros Hp. destruct s; simpl; by rewrite Hp. Qed.

Lemma Index_sound s sub i :
  Index s sub = Some i ->
  s = (sliceTo i s ++ sub ++ sliceFrom (i + String.length sub) s)%string.
Proof.
  intros (_ & Hp & _)%Index_Some. apply HasPrefix_iff in Hp as [t Ht].
  rewrite <- sliceFrom_sliceFrom, Ht, sliceFrom_app, <- Ht. apply slice_split.
Qed.

Lemma HasSuffix_iff s sub : HasSuffix s sub = true <-> exists p, s = (p ++ sub)%string.
Proof.
  unfold HasSuffix, len. split.
  - intros [Hle Heq]%andb_true_iff. apply Nat.leb_le in Hle.
    apply String.eqb_eq in Heq.
    exists (sliceTo (String.length s - String.length sub) s).
    set (k := (String.length s - String.length sub)%nat) in *.
    rewrite <- Heq. apply slice_split.
  - intros [p ->]. rewrite str_length_app. apply andb_true_iff. split.
    + apply Nat.leb_le. lia.
    + replace (String.length p + String.length sub - String.length sub)%nat
        with (String.length p) by lia.
      rewrite sliceFrom_app. apply String.eqb_refl.
Qed.

Lemma noLF_app s t : noLF (s ++ t) = noLF s && noLF t.
Proof.
  unfold noLF. induction s as [|c s IH]; simpl; [reflexivity|].
  by rewrite IH, andb_assoc.
Qed.

(** A line-feed-free prefix cannot hold the start of a substring that
    begins with a line feed. *)
Lemma Index_skip_noLF p t sub :
  noLF p = true ->
  Index (p ++ t) (String LF sub) = option_map (Nat.add (String.length p)) (Index t (String LF sub)).
Proof.
  intros Hp. induction p as [|c p IH].
  - simpl. by destruct (Index t (String LF sub)).
  - unfold noLF in Hp. simpl in Hp. apply andb_true_iff in Hp as [Hc Hp].
    cbn [String.append Index HasPrefix].
    rewrite Ascii.eqb_sym. apply negb_true_iff in Hc. rewrite Hc.
    rewrite (IH Hp). by destruct (Index t (String LF sub)).
Qed.

(** A line that does not begin the substring is skipped as a whole. *)
Lemma Index_skip_line p t sub :
  noLF p = true ->
  HasPrefix (String LF t) (String LF sub) = false ->
  Index (p ++ String LF t) (String LF sub)
  = option_map (Nat.add (S (String.length p))) (Index t (String LF sub)).
Proof.
  intros Hp Hn. rewrite (Index_skip_noLF _ _ _ Hp).
  cbn [Index]. rewrite Hn.
  destruct (Index t (String LF sub)); simpl; [|reflexivity].
  f_equal. lia.
Qed.

End StringFacts.

(** ** The note codec *)

Section Codec.

#[local] Arguments String.append !s1 s2 : simpl nomatch.

Context `{Env}.

Lemma writeSeq_eq (key : string) (items : list string) :
  writeSeq key items = (key ++ ": [" ++ writeItems 0 items ++ "]" ++ nl)%string.
Proof. by destruct items. Qed.

Lemma ToMarkdown_eq (n : Note.t) :
  ToMarkdown n =
  (("---" ++ nl) ++ headerText (Note.Frontmatter n) ++ (nl ++ "---" ++ nl) ++ Note.Content n)%string.
Proof.
  unfold ToMarkdown, headerText, writeSummary. rewrite !writeSeq_eq.
  destruct (String.eqb _ _); rewrite !str_app_assoc; reflexivity.
Qed.

Lemma digitChar_noLF (x : Z) : Ascii.eqb (digitChar (x mod 10)) LF = false.
Proof.
  unfold digitChar. pose proof (Z.mod_pos_bound x 10 eq_refl) as Hb.
  assert (Z.to_nat (x mod 10) < 10)%nat as Hk by lia.
  generalize dependent (Z.to_nat (x mod 10)). intros k Hk.
  do 10 (destruct k as [|k]; [reflexivity|]). lia.
Qed.

Lemma formatNoteTime_noLF (t : Time) : noLF (formatNoteTime t) = true.
Proof.
  unfold formatNoteTime, pad4, pad2, noLF. cbn [String.append allChars].
  rewrite !digitChar_noLF. reflexivity.
Qed.

Lemma writeItems_noLF (i : nat) (items : list string) :
  Forall (fun x => noLF x = true) items -> noLF (writeItems i items) = true.
Proof.
  intros Hall. revert i. induction Hall as [|x rest Hx _ IH]; intros i; simpl.
  - reflexivity.
  - rewrite !noLF_app, Hx, IH. by destruct (0 <? i)%nat.
Qed.

(** Where the first closing marker of a four-line header is. *)
Lemma Index_four_lines (l1 l2 l3 l4 body : string) (c2 c3 c4 : ascii) (r2 r3 r4 : string) :
  l2 = String c2 r2 -> l3 = String c3 r3 -> l4 = String c4 r4 ->
  Ascii.eqb "-" c2 = false -> Ascii.eqb "-" c3 = false -> Ascii.eqb "-" c4 = false ->
  noLF l1 = true -> noLF l2 = true -> noLF l3 = true -> noLF l4 = true ->
  let h := (l1 ++ nl ++ l2 ++ nl ++ l3 ++ nl ++ l4)%string in
  Index (h ++ (nl ++ "---" ++ nl) ++ body) (nl ++ "---" ++ nl) = Some (String.length h).
Proof.
  intros E2 E3 E4 N2 N3 N4 H1 H2 H3 H4 h. subst h.
  assert (forall x, (nl ++ x)%string = String LF x) as Hnl by reflexivity.
  rewrite !str_app_assoc, !Hnl.
  change ("---" ++ String LF EmptyString)%string
    with (String "-" (String "-" (String "-" (String LF EmptyString)))).
  rewrite (Index_skip_line l1), (Index_skip_line l2), (Index_skip_line l3); try done.
  - rewrite (Index_skip_noLF l4), Index_prefix by done.
    cbn [option_map]. f_equal.
    repeat (rewrite str_length_app; cbn [String.length]). lia.
  - rewrite E4. cbn [String.append HasPrefix]. rewrite Ascii.eqb_refl, N4. reflexivity.
  - rewrite E3. cbn [String.append HasPrefix]. rewrite Ascii.eqb_refl, N3. reflexivity.
  - rewrite E2. cbn [String.append HasPrefix]. rewrite Ascii.eqb_refl, N2. reflexivity.
Qed.

(** Parsing a text whose first closing marker ends the header [h]. *)
Lemma Parse_split (filename h body : string) :
  Index (h ++ (nl ++ "---" ++ nl) ++ body) (nl ++ "---" ++ nl) = Some (String.length h) ->
  ParseNoteContent filename (("---" ++ nl) ++ h ++ (nl ++ "---" ++ nl) ++ body)
  = match Unmarshal h with
    | Some fm => Parsed (Note.mk filename fm body)
    | None => ParseError
    end.
Proof.
  intros Hidx. unfold ParseNoteContent.
  rewrite HasPrefix_app. cbn [negb].
  change (sliceFrom 4) with (sliceFrom (String.length ("---" ++ nl))).
  rewrite sliceFrom_app.
  rewrite Hidx, sliceTo_app.
  destruct (Unmarshal h) as [fm|]; [|reflexivity].
  do 2 f_equal. unfold len. rewrite <- str_app_assoc.
  set (pre := (h ++ nl ++ "---" ++ nl)%string).
  assert (String.length h + 5 = String.length pre)%nat as ->
    by (subst pre; rewrite str_length_app; reflexivity).
  rewrite str_length_app. destruct body as [|c body].
  - cbn [String.length]. rewrite Nat.add_0_r, Nat.ltb_irrefl.
    by destruct (HasSuffix _ _).
  - rewrite (proj2 (Nat.ltb_lt _ _)) by (cbn [String.length]; lia).
    apply sliceFrom_app.
Qed.

End Codec.




(** Two different headers with one serialization: a tag that holds the
    separator, and a creation time with seconds. *)
Lemma ToMarkdown_merges_headers `{Env} (body : string) :
  ToMarkdown (Note.mk "n.md" (Frontmatter.mk zeroTime ["a, b"] EmptyString []) body)
  = ToMarkdown (Note.mk "n.md" (Frontmatter.mk zeroTime ["a"; "b"] EmptyString []) body) /\
  ToMarkdown (Note.mk "n.md" (Frontmatter.mk (mkTime 2025 1 11 14 23 45 0) [] EmptyString []) body)
  = ToMarkdown (Note.mk "n.md" (Frontmatter.mk (mkTime 2025 1 11 14 23 0 0) [] EmptyString []) body).
Proof. split; reflexivity. Qed.



(** ** The markers of a note *)

Section Markers.

#[local] Arguments String.append !s1 s2 : simpl nomatch.

Context `{Env}.

Lemma str_app_inj (p p' a b : string) :
  String.length p = String.length p' -> (p ++ a)%string = (p' ++ b)%string ->
  p = p' /\ a = b.
Proof.
  revert p'. induction p as [|c p IH]; intros [|c' p']; simpl; try discriminate.
  - done.
  - intros [= Hlen] [= -> E]. destruct (IH p' Hlen E) as [-> ->]. done.
Qed.

Lemma str_app_inv_head (p a b : string) : (p ++ a)%string = (p ++ b)%string -> a = b.
Proof. intros E. by destruct (str_app_inj p p a b eq_refl E). Qed.


(** An occurrence of [sub] in [s] is found by [Index] at that place or
    before it. *)
Lemma Index_occurrence (s sub pre post : string) :
  s = (pre ++ sub ++ post)%string ->
  exists i, Index s sub = Some i /\ (i <= String.length pre)%nat.
Proof.
  intros ->. destruct (Index (pre ++ sub ++ post) sub) as [i|] eqn:Ei.
  - exists i. split; [done|]. destruct (Index_Some _ _ _ Ei) as (_ & _ & Hmin).
    destruct (le_lt_dec i (String.length pre)) as [?|Hlt]; [done|].
    specialize (Hmin _ Hlt). rewrite sliceFrom_app, HasPrefix_app in Hmin. discriminate.
  - pose proof (Index_None _ _ (String.length pre) Ei) as Hn.
    rewrite sliceFrom_app, HasPrefix_app in Hn. discriminate.
Qed.

Lemma sliceFrom_past (s : string) (n : nat) :
  (String.length s <= n)%nat -> sliceFrom n s = EmptyString.
Proof.
  revert s. induction n as [|n IH]; intros [|c s]; simpl; try done; [lia|].
  intros Hl. apply IH. lia.
Qed.


(** What [ParseNoteContent] returns, by the markers of the text. *)
Lemma ParseNoteContent_spec (filename data : string) :
  (exists text body,
     splitsAt data text body /\
     ParseNoteContent filename data
     = match Unmarshal text with
       | Some fm => Parsed (Note.mk filename fm body)
       | None => ParseError
       end) \/
  ((forall text body, ~ splitsAt data text body) /\
   ParseNoteContent filename data = Parsed (Note.mk filename Frontmatter.zero data)).
Proof.
  unfold ParseNoteContent, splitsAt, openMarker, closeMarker, endMarker.
  destruct (HasPrefix data ("---" ++ nl)) eqn:Ep; cbn [negb].
  - apply HasPrefix_iff in Ep as [rest ->].
    change (sliceFrom 4) with (sliceFrom (String.length ("---" ++ nl))).
    rewrite sliceFrom_app.
    destruct (Index rest (nl ++ "---" ++ nl)) as [i|] eqn:Ei.
    + left. exists (sliceTo i rest), (sliceFrom (i + 5) rest).
      pose proof (Index_sound _ _ _ Ei) as Hs.
      change (String.length (nl ++ "---" ++ nl)) with 5%nat in Hs.
      split.
      * left. split; [by rewrite <- Hs|].
        intros text' body' E. apply str_app_inv_head in E.
        destruct (Index_occurrence _ _ _ _ E) as (i' & Ei' & Hle).
        rewrite Ei in Ei'. injection Ei' as <-.
        rewrite length_sliceTo. lia.
      * destruct (Unmarshal (sliceTo i rest)); [|done]. do 2 f_equal.
        destruct (i + 5 <? len rest)%nat eqn:El; [done|].
        apply Nat.ltb_ge in El. rewrite sliceFrom_past by exact El.
        by destruct (HasSuffix rest (nl ++ "---")).
    + destruct (HasSuffix rest (nl ++ "---")) eqn:Es.
      * left. apply HasSuffix_iff in Es as [p ->]. exists p, EmptyString.
        split.
        -- right. split; [done|]. split; [done|].
           intros text' body' E. apply str_app_inv_head in E.
           destruct (Index_occurrence _ _ _ _ E) as (i' & Ei' & _). congruence.
        -- unfold len. rewrite str_length_app.
           replace (String.length p + String.length (nl ++ "---") - 4)%nat
             with (String.length p)
             by (change (String.length (nl ++ "---")) with 4%nat; lia).
           rewrite sliceTo_app.
           destruct (Unmarshal p); [|done]. do 2 f_equal.
           change (String.length (nl ++ "---")) with 4%nat.
           by rewrite (proj2 (Nat.ltb_ge _ _)) by lia.
      * right. split; [|done].
        intros text body [[E _]|(E & _)]; apply str_app_inv_head in E.
        -- destruct (Index_occurrence _ _ _ _ E) as (i' & Ei' & _). congruence.
        -- assert (HasSuffix rest (nl ++ "---") = true) as Es'
             by (apply HasSuffix_iff; by exists text).
           congruence.
  - right. split; [|done].
    intros text body [[E _]|(E & _)]; rewrite E, HasPrefix_app in Ep; discriminate.
Qed.


End Markers.


(** The cases of [TestParseNoteContent] that do not depend on the decoder,
    and texts the search treats as having no closing marker. *)
Example ParseNoteContent_no_frontmatter `{Env} :
  let text := ("Just plain content" ++ nl ++ "No frontmatter here.")%string in
  ParseNoteContent "test.md" text = Parsed (Note.mk "test.md" Frontmatter.zero text) /\
  ParseNoteContent "test.md" ("---" ++ nl ++ "tags: [")
  = Parsed (Note.mk "test.md" Frontmatter.zero ("---" ++ nl ++ "tags: [")) /\
  ParseNoteContent "test.md" ("---" ++ nl ++ "---" ++ nl)
  = Parsed (Note.mk "test.md" Frontmatter.zero ("---" ++ nl ++ "---" ++ nl)).
Proof. repeat split. Qed.

Example ParseNoteContent_frontmatter_only :
  ParseNoteContent (H := exampleEnv) "test.md" (("---" ++ nl) ++ zeroHeader ++ nl ++ "---" ++ nl)
  = Parsed (Note.mk "test.md" Frontmatter.zero EmptyString) /\
  ParseNoteContent (H := exampleEnv) "test.md" (("---" ++ nl) ++ zeroHeader ++ nl ++ "---")
  = Parsed (Note.mk "test.md" Frontmatter.zero EmptyString) /\
  ParseNoteContent (H := exampleEnv) "test.md" (("---" ++ nl) ++ "tags: [" ++ nl ++ "---" ++ nl)
  = ParseError.
Proof. vm_compute. auto. Qed.


(** * Further properties *)

(** ** Relations in the index *)

Section Relations.

Implicit Types (m : MetaFile) (l : list string) (a b k x y : string).

Lemma elem_of_addItem_iff l x y : y ∈ addItem l x <-> y ∈ l \/ y = x.
Proof.
  unfold addItem. destruct (Contains l x) eqn:E.
  - apply Contains_elem_of in E. split; [auto | intros [?| ->]; auto].
  - rewrite elem_of_app, list_elem_of_singleton. tauto.
Qed.

Lemma elem_of_relatedOf_addOneWay m k x k' y :
  y ∈ relatedOf (addOneWay m k x) k' <->
  y ∈ relatedOf m k' \/ (k' = k /\ is_Some (m !! k) /\ y = x).
Proof.
  rewrite relatedOf_addOneWay. case_decide as Hk.
  - subst k'. unfold relatedOf. destruct (m !! k) as [e|] eqn:E.
    + rewrite elem_of_addItem_iff. split; [intros [?| ->]; eauto 6 | tauto].
    + split; [auto|]. intros [?|(_ & [e He] & _)]; [done | discriminate].
  - tauto.
Qed.

Lemma elem_of_relatedOf_removeOneWay m k x k' y :
  y ∈ relatedOf (removeOneWay m k x) k' <->
  y ∈ relatedOf m k' /\ ~ (k' = k /\ y = x).
Proof.
  rewrite relatedOf_removeOneWay. case_decide as Hk.
  - subst k'. rewrite elem_of_RemoveString. tauto.
  - tauto.
Qed.

Lemma elem_of_relatedOf_AddRelation m a b k y :
  y ∈ relatedOf (AddRelation m a b) k <->
  y ∈ relatedOf m k \/ (k = a /\ is_Some (m !! a) /\ y = b)
                    \/ (k = b /\ is_Some (m !! b) /\ y = a).
Proof.
  unfold AddRelation.
  rewrite elem_of_relatedOf_addOneWay, elem_of_relatedOf_addOneWay, addOneWay_is_Some.
  tauto.
Qed.

Lemma elem_of_relatedOf_RemoveRelation m a b k y :
  y ∈ relatedOf (RemoveRelation m a b) k <->
  y ∈ relatedOf m k /\ ~ (k = a /\ y = b) /\ ~ (k = b /\ y = a).
Proof.
  unfold RemoveRelation.
  rewrite elem_of_relatedOf_removeOneWay, elem_of_relatedOf_removeOneWay. tauto.
Qed.

Lemma AddRelation_is_Some m a b k : is_Some (AddRelation m a b !! k) <-> is_Some (m !! k).
Proof. unfold AddRelation. by rewrite !addOneWay_is_Some. Qed.

Lemma RemoveRelation_is_Some m a b k :
  is_Some (RemoveRelation m a b !! k) <-> is_Some (m !! k).
Proof. unfold RemoveRelation. by rewrite !removeOneWay_is_Some. Qed.

Lemma otherFields_alter (f : list string -> list string) m k k' :
  otherFields <$> (alter (fun e => FileMeta.setRelated (f (FileMeta.Related e)) e) k m !! k')
  = otherFields <$> (m !! k').
Proof.
  destruct (decide (k' = k)) as [->|Hne].
  - rewrite lookup_alter_eq. by destruct (m !! k).
  - by rewrite lookup_alter_ne.
Qed.

Lemma RemoveString_addItem l x : x ∉ l -> RemoveString (addItem l x) x = l.
Proof.
  intros Hx. unfold addItem. apply Contains_false in Hx as Hc. rewrite Hc.
  clear Hc. induction l as [|s l IH]; simpl.
  - by rewrite String.eqb_refl.
  - apply not_elem_of_cons in Hx as [Hne Hl].
    destruct (String.eqb_spec s x) as [->|_]; [done|]. simpl. by rewrite IH.
Qed.

Lemma removeOneWay_addOneWay m k x :
  x ∉ relatedOf m k -> removeOneWay (addOneWay m k x) k x = m.
Proof.
  intros Hx. rewrite removeOneWay_alter, addOneWay_alter, alter_alter_eq.
  apply alter_id. intros e He. simpl. unfold relatedOf in Hx. rewrite He in Hx.
  unfold FileMeta.setRelated. simpl. rewrite RemoveString_addItem by done.
  by destruct e.
Qed.

Lemma removeOneWay_comm_add m k x k' y :
  k <> k' -> removeOneWay (addOneWay m k' y) k x = addOneWay (removeOneWay m k x) k' y.
Proof.
  intros Hne. rewrite !removeOneWay_alter, !addOneWay_alter. by apply alter_alter_ne.
Qed.

End Relations.

(** X1. [AddRelation] and [RemoveRelation] never create or delete an index
    entry, and they change no field of an entry other than its related
    list. *)
Theorem relations_keep_entries (m : MetaFile) (a b k : string) :
  (is_Some (AddRelation m a b !! k) <-> is_Some (m !! k)) /\
  (is_Some (RemoveRelation m a b !! k) <-> is_Some (m !! k)) /\
  otherFields <$> (AddRelation m a b !! k) = otherFields <$> (m !! k) /\
  otherFields <$> (RemoveRelation m a b !! k) = otherFields <$> (m !! k).
Proof.
  split; [apply AddRelation_is_Some|]. split; [apply RemoveRelation_is_Some|]. split.
  - unfold AddRelation. rewrite !addOneWay_alter.
    by rewrite (otherFields_alter (fun l => addItem l a)),
               (otherFields_alter (fun l => addItem l b)).
  - unfold RemoveRelation. rewrite !removeOneWay_alter.
    by rewrite (otherFields_alter (fun l => RemoveString l a)),
               (otherFields_alter (fun l => RemoveString l b)).
Qed.

(** X2. Adding a relation that was not there and removing it again gives
    back the index as it was, whether or not the two notes have entries. *)
Theorem RemoveRelation_AddRelation (m : MetaFile) (a b : string)
  (Hab : b ∉ relatedOf m a) (Hba : a ∉ relatedOf m b) :
  RemoveRelation (AddRelation m a b) a b = m.
Proof.
  unfold RemoveRelation, AddRelation. destruct (decide (a = b)) as [->|Hne].
  - rewrite addOneWay_idem.
    rewrite (removeOneWay_addOneWay m b b Hab). by apply removeOneWay_absent.
  - rewrite (removeOneWay_comm_add (addOneWay m a b) a b b a Hne).
    rewrite (removeOneWay_addOneWay m a b Hab).
    by apply removeOneWay_addOneWay.
Qed.

(** [RemoveRelation_AddRelation] on the index of the test. *)
Lemma RemoveRelation_AddRelation_witness :
  RemoveRelation (AddRelation testRelations "a.md" "b.md") "a.md" "b.md" = testRelations.
Proof.
  apply RemoveRelation_AddRelation; vm_compute; inversion 1.
Defined.

(** X3. The relational symmetry of the index, for the notes that have an
    entry, is kept by [AddRelation] and by [RemoveRelation]. *)
Theorem symmetricIndex_preserved (m : MetaFile) (a b : string)
  (Hsym : symmetricIndex m) :
  symmetricIndex (AddRelation m a b) /\ symmetricIndex (RemoveRelation m a b).
Proof.
  split; intros x y Hx Hy.
  - apply AddRelation_is_Some in Hx, Hy. specialize (Hsym x y Hx Hy).
    rewrite !elem_of_relatedOf_AddRelation. split.
    + intros [?|[(-> & _ & ->)|(-> & _ & ->)]]; [left; tauto | right; right | right; left];
        done.
    + intros [?|[(-> & _ & ->)|(-> & _ & ->)]]; [left; tauto | right; right | right; left];
        done.
  - apply RemoveRelation_is_Some in Hx, Hy. specialize (Hsym x y Hx Hy).
    rewrite !elem_of_relatedOf_RemoveRelation. split.
    + intros (H1 & H2 & H3). split; [tauto|]. split; intros [-> ->]; tauto.
    + intros (H1 & H2 & H3). split; [tauto|]. split; intros [-> ->]; tauto.
Qed.

(** [symmetricIndex_preserved] on an index in which [a.md] and [b.md] are
    related and [c.md] is related to nothing: [b.md] and [c.md] get
    related. *)
Lemma symmetricIndex_preserved_witness :
  symmetricIndex
    (AddRelation
       {[ "a.md" := entry ["b.md"]; "b.md" := entry ["a.md"]; "c.md" := entry [] ]}
       "b.md" "c.md").
Proof.
  refine (proj1 (symmetricIndex_preserved _ "b.md" "c.md" _)).
  set (m := ({[ "a.md" := entry ["b.md"]; "b.md" := entry ["a.md"];
               "c.md" := entry [] ]} : MetaFile)).
  assert (forall k, is_Some (m !! k) -> k = "a.md" \/ k = "b.md" \/ k = "c.md") as Hkeys.
  { intros k. subst m. rewrite <- elem_of_dom, !dom_insert_L, dom_singleton_L.
    rewrite !elem_of_union, !elem_of_singleton. tauto. }
  assert (relatedOf m "a.md" = ["b.md"]) as Ha by (by vm_compute).
  assert (relatedOf m "b.md" = ["a.md"]) as Hb by (by vm_compute).
  assert (relatedOf m "c.md" = []) as Hc by (by vm_compute).
  intros x y Hx%Hkeys Hy%Hkeys.
  destruct Hx as [-> | [-> | ->]], Hy as [-> | [-> | ->]]; rewrite ?Ha, ?Hb, ?Hc;
    rewrite ?elem_of_cons, ?elem_of_nil; split; intros Hin;
    repeat destruct Hin as [Hin|Hin]; try discriminate Hin; try done; auto.
Defined.

(** X4. After [UpdateFromNote], and after [UpdateFromNoteWithEnrichment],
    the note no longer needs enrichment for its current fingerprint, and the
    answer for every other identifier is what it was. *)
Theorem UpdateFromNote_settles_enrichment `{Env} (m : MetaFile) (note : Note.t) (now : Time) :
  NeedsEnrichment (UpdateFromNote m note) (Base (Note.Filename note)) (ContentHash note)
    = false /\
  NeedsEnrichment (UpdateFromNoteWithEnrichment now m note)
    (Base (Note.Filename note)) (ContentHash note) = false /\
  (forall id h, id <> Base (Note.Filename note) ->
     NeedsEnrichment (UpdateFromNote m note) id h = NeedsEnrichment m id h /\
     NeedsEnrichment (UpdateFromNoteWithEnrichment now m note) id h
       = NeedsEnrichment m id h).
Proof.
  unfold NeedsEnrichment, UpdateFromNoteWithEnrichment, UpdateFromNote.
  repeat split.
  - rewrite lookup_insert_eq. cbn [FileMeta.ContentHash]. by rewrite String.eqb_refl.
  - rewrite lookup_alter_eq, lookup_insert_eq.
    cbn [fmap option_fmap option_map FileMeta.setEnrichedAt FileMeta.ContentHash].
    by rewrite String.eqb_refl.
  - by rewrite lookup_insert_ne.
  - by rewrite lookup_alter_ne, lookup_insert_ne.
Qed.

(** X5. The removal loop of [CmdSync] never adds or changes an entry, and a
    second pass over its result, in any order, removes nothing more. *)
Theorem removeDeleted_stable (fileExists : string -> bool)
    (filenames filenames' : list string) (m : MetaFile)
    (Hkeys : forall k, is_Some (m !! k) -> k ∈ filenames) :
  removeDeleted fileExists false filenames m ⊆ m /\
  removeDeleted fileExists false filenames' (removeDeleted fileExists false filenames m)
  = removeDeleted fileExists false filenames m.
Proof.
  split.
  - apply map_subseteq_spec. intros k e. rewrite removeDeleted_lookup.
    by case_decide.
  - apply map_eq. intros k. rewrite !removeDeleted_lookup.
    case_decide as H1; [|done]. case_decide as H2; [done|].
    destruct (m !! k) as [e|] eqn:E; [|done].
    exfalso. apply H2. split; [|tauto]. apply Hkeys. by rewrite E.
Qed.

(** [removeDeleted_stable] on two entries, one of them without its file. *)
Lemma removeDeleted_stable_witness :
  removeDeleted (String.eqb "a.md") false ["a.md"]
    (removeDeleted (String.eqb "a.md") false ["b.md"; "a.md"] testRelations)
  = removeDeleted (String.eqb "a.md") false ["b.md"; "a.md"] testRelations.
Proof.
  refine (proj2 (removeDeleted_stable (String.eqb "a.md") ["b.md"; "a.md"] ["a.md"]
                   testRelations _)).
  intros k. unfold testRelations. rewrite <- elem_of_dom, dom_insert_L, dom_singleton_L.
  rewrite !elem_of_cons, elem_of_nil, elem_of_union, !elem_of_singleton. tauto.
Defined.

(** ** [CmdSync]: detecting changes *)

Lemma sliceEqualLoop_eq (a b : list string) :
  length a = length b -> (sliceEqualLoop a b = true <-> a = b).
Proof.
  revert b. induction a as [|x a IH]; intros [|y b] Hlen; simpl in *; try discriminate.
  - done.
  - destruct (String.eqb_spec x y) as [->|Hne]; simpl.
    + rewrite IH by lia. split; [by intros -> | by intros [= ->]].
    + split; [discriminate | intros [= ? _]; done].
Qed.

Lemma stringSliceEqual_decides (a b : list string) :
  stringSliceEqual a b = true <-> a = b.
Proof.
  unfold stringSliceEqual. destruct (Nat.eqb_spec (length a) (length b)) as [Hlen|Hlen]; simpl.
  - by apply sliceEqualLoop_eq.
  - split; [discriminate | intros ->; done].
Qed.

(** X6. [stringSliceEqual] decides equality of the two slices: it is true
    exactly when they have the same strings in the same order, and so it is
    symmetric in its arguments. *)
Theorem stringSliceEqual_iff (a b : list string) :
  (stringSliceEqual a b = true <-> a = b) /\
  stringSliceEqual a b = stringSliceEqual b a.
Proof.
  split; [apply stringSliceEqual_decides|].
  pose proof (stringSliceEqual_decides a b) as Hab.
  pose proof (stringSliceEqual_decides b a) as Hba.
  destruct (stringSliceEqual a b), (stringSliceEqual b a); try done.
  - symmetry. apply Hba. symmetry. by apply Hab.
  - apply Hab. symmetry. by apply Hba.
Qed.

Lemma detectChanges_same (e : FileMeta.t) (note : Note.t) (newHash : string) :
  FileMeta.ContentHash e = newHash ->
  FileMeta.Tags e = Frontmatter.Tags (Note.Frontmatter note) ->
  FileMeta.Summary e = Frontmatter.Summary (Note.Frontmatter note) ->
  FileMeta.Related e = Frontmatter.Related (Note.Frontmatter note) ->
  detectChanges (Some e) note newHash = [].
Proof.
  intros Hh Ht Hs Hr. cbn [detectChanges]. rewrite Hh, Ht, Hs, Hr.
  rewrite !String.eqb_refl.
  rewrite !(proj2 (stringSliceEqual_decides _ _) eq_refl). done.
Qed.

(** X7. [detectChanges] reports nothing exactly when the index has an entry
    whose fingerprint, tags, summary and related list are those of the note
    (the enrichment time plays no part); it reports ["new"] exactly when
    there is no entry; it never reports more than four changes. *)
Theorem detectChanges_spec (existing : option FileMeta.t) (note : Note.t) (newHash : string) :
  (detectChanges existing note newHash = [] <->
     exists e, existing = Some e /\
       FileMeta.ContentHash e = newHash /\
       FileMeta.Tags e = Frontmatter.Tags (Note.Frontmatter note) /\
       FileMeta.Summary e = Frontmatter.Summary (Note.Frontmatter note) /\
       FileMeta.Related e = Frontmatter.Related (Note.Frontmatter note)) /\
  (detectChanges existing note newHash = ["new"] <-> existing = None) /\
  (length (detectChanges existing note newHash) <= 4)%nat.
Proof.
  destruct existing as [e|]; simpl.
  - pose proof (stringSliceEqual_decides (FileMeta.Tags e)
                  (Frontmatter.Tags (Note.Frontmatter note))) as Ht.
    pose proof (stringSliceEqual_decides (FileMeta.Related e)
                  (Frontmatter.Related (Note.Frontmatter note))) as Hr.
    destruct (String.eqb_spec (FileMeta.ContentHash e) newHash) as [Hh|Hh];
    destruct (stringSliceEqual (FileMeta.Tags e) _);
    destruct (String.eqb_spec (FileMeta.Summary e)
                (Frontmatter.Summary (Note.Frontmatter note))) as [Hs|Hs];
    destruct (stringSliceEqual (FileMeta.Related e) _); simpl;
    (split; [|split; [split; discriminate | lia]]);
    (split; [try discriminate; intros _; exists e; intuition |
             try reflexivity; intros (e' & [= <-] & H1 & H2 & H3 & H4);
             try (apply Ht in H2); try (apply Hr in H4); congruence]).
  - split; [|split; [done | lia]].
    split; [discriminate | intros (e & He & _); discriminate].
Qed.

(** X8. A sync of a note that is not a dry run leaves an entry on which
    [detectChanges] reports nothing and [NeedsEnrichment] is false, keeps
    the entry's enrichment time, and touches no other entry; a dry run
    reports the same changes and leaves the index as it was. *)
Theorem syncNote_settles (m : MetaFile) (filename : string) (note : Note.t) :
  let m' := snd (syncNote false m filename note) in
  detectChanges (m' !! filename) note (ContentHash note) = [] /\
  NeedsEnrichment m' filename (ContentHash note) = false /\
  FileMeta.EnrichedAt <$> (m' !! filename)
    = Some (match m !! filename with
            | Some e => FileMeta.EnrichedAt e
            | None => zeroTime
            end) /\
  (forall k, k <> filename -> m' !! k = m !! k) /\
  syncNote true m filename note = (fst (syncNote false m filename note), m).
Proof.
  intros m'. subst m'. unfold syncNote. cbn [negb snd fst].
  rewrite lookup_insert_eq. repeat split.
  - by apply detectChanges_same.
  - unfold NeedsEnrichment. rewrite lookup_insert_eq. cbn [FileMeta.ContentHash].
    by rewrite String.eqb_refl.
  - cbn [fmap option_fmap option_map FileMeta.EnrichedAt]. by destruct (m !! filename).
  - intros k Hk. by rewrite lookup_insert_ne.
Qed.

(** ** File names *)

Lemma suffixLoop_spec (fileExists : string -> bool) (base : string) (left : nat) (i : Z) :
  match suffixLoop fileExists base i left with
  | Some f =>
      fileExists f = false /\
      exists j, i <= j < i + Z.of_nat left /\ f = suffixedName base j /\
                forall j', i <= j' < j -> fileExists (suffixedName base j') = true
  | None =>
      forall j, i <= j < i + Z.of_nat left -> fileExists (suffixedName base j) = true
  end.
Proof.
  revert i. induction left as [|left IH]; intros i; simpl suffixLoop.
  - intros j Hj. lia.
  - destruct (fileExists (suffixedName base i)) eqn:E; simpl.
    + specialize (IH (i + 1)). destruct (suffixLoop fileExists base (i + 1) left) as [f|].
      * destruct IH as (Hf & j & Hj & -> & Hmin). split; [done|].
        exists j. split; [lia|]. split; [done|].
        intros j' Hj'. destruct (decide (j' = i)) as [->|Hne]; [done|].
        apply Hmin. lia.
      * intros j Hj. destruct (decide (j = i)) as [->|Hne]; [done|].
        apply IH. lia.
    + split; [done|]. exists i. split; [lia|]. split; [done|]. intros j' Hj'. lia.
Qed.

(** X9. [generateFilename] never returns the name of an existing file: it
    returns the unsuffixed name when that is free, otherwise the name with
    the least suffix from 1 to 99 that is free, and the error exactly when
    the unsuffixed name and all 99 suffixed names are taken. *)
Theorem generateFilename_free (fileExists : string -> bool) (now : Time) :
  let base := formatFilenameTime now in
  (forall f, generateFilename fileExists now = Some f ->
     fileExists f = false /\
     (f = (base ++ ".md")%string \/
      fileExists (base ++ ".md") = true /\
      exists i, 1 <= i < 100 /\ f = suffixedName base i /\
                forall j, 1 <= j < i -> fileExists (suffixedName base j) = true)) /\
  (generateFilename fileExists now = None <->
     fileExists (base ++ ".md") = true /\
     forall i, 1 <= i < 100 -> fileExists (suffixedName base i) = true).
Proof.
  intros base. unfold generateFilename. fold base.
  pose proof (suffixLoop_spec fileExists base 99 1) as Hloop.
  destruct (fileExists (base ++ ".md")) eqn:E; cbn [negb].
  - destruct (suffixLoop fileExists base 1 99) as [g|].
    + destruct Hloop as (Hg & i & Hi & -> & Hmin). split.
      * intros f [= <-]. split; [done|]. right. split; [done|].
        exists i. split; [lia|]. split; [done|]. intros j Hj. apply Hmin. lia.
      * split; [discriminate|]. intros [_ Hall]. rewrite Hall in Hg by lia. discriminate.
    + split; [discriminate|]. split; [|done]. intros _. split; [done|].
      intros i Hi. apply Hloop. lia.
  - split.
    + intros f [= <-]. split; [done | by left].
    + split; [discriminate | intros [? _]; discriminate].
Qed.

Example generateFilename_examples :
  let now := mkTime 2025 1 11 14 23 45 0 in
  generateFilename (fun _ => false) now = Some "2025-01-11-1423.md" /\
  generateFilename (String.eqb "2025-01-11-1423.md") now = Some "2025-01-11-1423-1.md" /\
  generateFilename
    (fun f => String.eqb "2025-01-11-1423.md" f || negb (String.eqb "2025-01-11-1423-12.md" f))
    now = Some "2025-01-11-1423-12.md" /\
  generateFilename (fun _ => true) now = None.
Proof. vm_compute. auto. Qed.

Section Extension.

#[local] Arguments String.append !s1 s2 : simpl nomatch.

Lemma list_ascii_of_string_app (s t : string) :
  list_ascii_of_string (s ++ t) = (list_ascii_of_string s ++ list_ascii_of_string t)%list.
Proof. induction s as [|c s IH]; simpl; [done | by rewrite IH]. Qed.

Lemma string_of_list_ascii_snoc (l : list ascii) (c : ascii) (s : string) :
  (string_of_list_ascii (l ++ [c]) ++ s)%string
  = (string_of_list_ascii l ++ String c s)%string.
Proof. induction l as [|d l IH]; simpl; [done | by rewrite IH]. Qed.

(** What [filepath.Ext] returns is empty or a suffix of the path. *)
Lemma extScan_suffix (back : list ascii) (suffix : string) :
  extScan back suffix = EmptyString \/
  exists front, (string_of_list_ascii (rev back) ++ suffix)%string
                = (front ++ extScan back suffix)%string.
Proof.
  revert suffix. induction back as [|c back IH]; intros suffix; simpl; [by left|].
  destruct (Ascii.eqb c "/"); [by left|].
  rewrite string_of_list_ascii_snoc.
  destruct (Ascii.eqb c "."); [right; by eexists|]. apply IH.
Qed.

Lemma Ext_suffix (path : string) :
  Ext path = EmptyString \/ exists front, path = (front ++ Ext path)%string.
Proof.
  unfold Ext. destruct (extScan_suffix (rev (list_ascii_of_string path)) EmptyString)
    as [?|[front Hf]]; [by left|]. right. exists front.
  by rewrite rev_involutive, string_of_list_ascii_of_string, str_app_nil_r in Hf.
Qed.

Lemma Ext_app_md (f : string) : Ext (f ++ ".md") = ".md".
Proof.
  unfold Ext. rewrite list_ascii_of_string_app, rev_app_distr. reflexivity.
Qed.

End Extension.

(** X10. [NormalizeFilename] always returns a name whose extension is
    [.md] and that ends in [.md]; it leaves a name alone exactly when its
    extension is [.md] already, and applying it twice is applying it once. *)
Theorem NormalizeFilename_md (filename : string) :
  Ext (NormalizeFilename filename) = ".md" /\
  HasSuffix (NormalizeFilename filename) ".md" = true /\
  (NormalizeFilename filename = filename <-> Ext filename = ".md") /\
  NormalizeFilename (NormalizeFilename filename) = NormalizeFilename filename.
Proof.
  assert (Ext (NormalizeFilename filename) = ".md") as HE.
  { unfold NormalizeFilename.
    destruct (String.eqb_spec (Ext filename) ".md") as [E|E]; simpl;
      [done | apply Ext_app_md]. }
  split; [done|]. split; [|split].
  - apply HasSuffix_iff. destruct (Ext_suffix (NormalizeFilename filename)) as [E|[front E]].
    + rewrite HE in E. discriminate.
    + exists front. by rewrite HE in E.
  - unfold NormalizeFilename.
    destruct (String.eqb_spec (Ext filename) ".md") as [E|E]; simpl; [done|].
    split; [|done]. intros Heq. exfalso.
    assert (String.length (filename ++ ".md") = String.length filename) as Hl by by rewrite Heq.
    rewrite str_length_app in Hl. simpl in Hl. lia.
  - unfold NormalizeFilename at 1. by rewrite HE.
Qed.

(** [TestNormalizeFilename], and names with a separator or without a stem. *)
Example TestNormalizeFilename :
  NormalizeFilename "2025-01-11-1423" = "2025-01-11-1423.md" /\
  NormalizeFilename "2025-01-11-1423.md" = "2025-01-11-1423.md" /\
  NormalizeFilename "note" = "note.md" /\
  NormalizeFilename "note.md" = "note.md" /\
  NormalizeFilename "note.txt" = "note.txt.md" /\
  NormalizeFilename "dir.md/note" = "dir.md/note.md" /\
  NormalizeFilename EmptyString = ".md".
Proof. vm_compute. repeat split. Qed.

(** ** Tags shared by two notes *)

Section SharedTags.

Variable EqualFold : string -> string -> bool.

Lemma anyNoteTag_existsb (ft : string) (noteTags : list string) :
  anyNoteTag EqualFold ft noteTags = existsb (EqualFold ft) noteTags.
Proof.
  induction noteTags as [|nt rest IH]; simpl; [done|].
  by destruct (EqualFold ft nt).
Qed.

Lemma sharedInner_eq (t1 : string) (tags2 shared : list string) :
  sharedInner EqualFold t1 tags2 shared
  = (shared ++ (if existsb (EqualFold t1) tags2 then [t1] else []))%list.
Proof.
  induction tags2 as [|t2 rest IH]; simpl.
  - by rewrite app_nil_r.
  - destruct (EqualFold t1 t2); simpl; [done | exact IH].
Qed.

Lemma shared_fold_eq (tags1 tags2 shared : list string) :
  fold_left (fun shared t1 => sharedInner EqualFold t1 tags2 shared) tags1 shared
  = (shared ++ List.filter (fun t1 => existsb (EqualFold t1) tags2) tags1)%list.
Proof.
  revert shared. induction tags1 as [|t1 rest IH]; intros shared; simpl.
  - by rewrite app_nil_r.
  - rewrite IH, sharedInner_eq. destruct (existsb (EqualFold t1) tags2); simpl.
    + by rewrite <- app_assoc.
    + by rewrite app_nil_r.
Qed.

(** X11. [getSharedTags] is empty when either note has no entry; otherwise
    it is the tags of the first note, in their order and spelling and with
    their repetitions, that match some tag of the second note under
    [EqualFold]. *)
Theorem getSharedTags_filter (meta : MetaFile) (file1 file2 : string) :
  (meta !! file1 = None \/ meta !! file2 = None ->
     getSharedTags EqualFold meta file1 file2 = []) /\
  (forall meta1 meta2, meta !! file1 = Some meta1 -> meta !! file2 = Some meta2 ->
     getSharedTags EqualFold meta file1 file2
     = List.filter (fun t1 => existsb (EqualFold t1) (FileMeta.Tags meta2))
                   (FileMeta.Tags meta1)).
Proof.
  unfold getSharedTags. split.
  - intros [-> | ->]; [done|]. by destruct (meta !! file1).
  - intros meta1 meta2 -> ->. by rewrite shared_fold_eq.
Qed.

Lemma hasAnyTag_existsb (noteTags filterTags : list string) :
  hasAnyTag EqualFold noteTags filterTags
  = existsb (fun ft => existsb (EqualFold ft) noteTags) filterTags.
Proof.
  induction filterTags as [|ft rest IH]; simpl; [done|].
  rewrite anyNoteTag_existsb. by destruct (existsb (EqualFold ft) noteTags).
Qed.

(** X12. [hasAnyTag] holds exactly when some filter tag matches some tag
    of the note under [EqualFold]; so two indexed notes share a tag, in the
    sense of [getSharedTags], exactly when [hasAnyTag] holds with the first
    note's tags as the filter. *)
Theorem hasAnyTag_iff (noteTags filterTags : list string) :
  (hasAnyTag EqualFold noteTags filterTags = true <->
     exists ft nt, In ft filterTags /\ In nt noteTags /\ EqualFold ft nt = true) /\
  (forall (meta : MetaFile) file1 file2 meta1 meta2,
     meta !! file1 = Some meta1 -> meta !! file2 = Some meta2 ->
     FileMeta.Tags meta1 = filterTags -> FileMeta.Tags meta2 = noteTags ->
     (getSharedTags EqualFold meta file1 file2 <> [] <->
      hasAnyTag EqualFold noteTags filterTags = true)).
Proof.
  assert (hasAnyTag EqualFold noteTags filterTags = true <->
     exists ft nt, In ft filterTags /\ In nt noteTags /\ EqualFold ft nt = true) as Hiff.
  { rewrite hasAnyTag_existsb, existsb_exists. split.
    - intros (ft & Hft & (nt & Hnt & E)%existsb_exists). eauto.
    - intros (ft & nt & Hft & Hnt & E). exists ft. split; [done|].
      apply existsb_exists. eauto. }
  split; [exact Hiff|]. clear Hiff.
  intros meta file1 file2 meta1 meta2 H1 H2 <- <-.
  unfold getSharedTags. rewrite H1, H2, shared_fold_eq, hasAnyTag_existsb.
  induction (FileMeta.Tags meta1) as [|t1 rest IH]; simpl; [split; [done | discriminate]|].
  destruct (existsb (EqualFold t1) (FileMeta.Tags meta2)); simpl; [split; done|].
  exact IH.
Qed.

End SharedTags.

(** [hasAnyTag_iff] with equality of strings for [EqualFold]. *)
Lemma hasAnyTag_iff_witness :
  getSharedTags String.eqb
    {[ "a.md" := FileMeta.mk EmptyString zeroTime ["go"; "rocq"] EmptyString [];
       "b.md" := FileMeta.mk EmptyString zeroTime ["rocq"] EmptyString [] ]}
    "a.md" "b.md" <> [].
Proof.
  eapply (proj2 (hasAnyTag_iff String.eqb ["rocq"] ["go"; "rocq"])); reflexivity.
Defined.

(** ** Connections and trees *)

Lemma allConnections_fold (filenames : list string) (m : MetaFile)
    (acc : list (string * list string)) (f : string) (to : list string) :
  In (f, to)
     (fold_left
        (fun connections filename =>
           match m !! filename with
           | Some fileMeta =>
               match FileMeta.Related fileMeta with
               | [] => connections
               | _ :: _ => (connections ++ [(filename, FileMeta.Related fileMeta)])%list
               end
           | None => connections
           end) filenames acc) <->
  In (f, to) acc \/ (In f filenames /\ relatedOf m f = to /\ to <> [] /\ is_Some (m !! f)).
Proof.
  revert acc. induction filenames as [|k ks IH]; intros acc; simpl.
  - split; [auto | intros [?|[[] _]]; done].
  - rewrite IH. unfold relatedOf. destruct (m !! k) as [e|] eqn:E.
    + destruct (FileMeta.Related e) as [|r rs] eqn:Er.
      * split; [intros [?|(? & ?)]; [by left | right; tauto]|].
        intros [?|([<-|?] & H2 & H3 & H4)]; [by left | | right; tauto].
        rewrite E, Er in H2. congruence.
      * rewrite in_app_iff. simpl. split.
        -- intros [[?|[[= <- <-]|[]]]|?]; [by left | | right; tauto].
           right. rewrite E, Er. split; [by left|]. split; [done|]. split; [done | eauto].
        -- intros [?|([<-|?] & H2 & H3 & H4)]; [tauto | | right; tauto].
           left. right. left. rewrite E, Er in H2. by rewrite H2.
    + split; [intros [?|(? & ?)]; [by left | right; tauto]|].
      intros [?|([<-|?] & H2 & H3 & [e He])]; [by left | congruence | right].
      split; [done|]. split; [done|]. split; [done | eauto].
Qed.

(** X13. When the range yields the keys of the index, the JSON list of
    connections holds a pair for exactly the notes whose related list is
    not empty, each with its related list: after [AddRelation] between two
    indexed notes both are in it. *)
Theorem allConnections_spec (filenames : list string) (m : MetaFile)
    (Hkeys : forall k, is_Some (m !! k) -> In k filenames) :
  (forall f to, In (f, to) (allConnections filenames m) <->
                relatedOf m f = to /\ to <> []) /\
  (forall a b, is_Some (m !! a) -> is_Some (m !! b) ->
     forall filenames', (forall k, is_Some (m !! k) -> In k filenames') ->
       In (a, relatedOf (AddRelation m a b) a)
          (allConnections filenames' (AddRelation m a b)) /\
       In (b, relatedOf (AddRelation m a b) b)
          (allConnections filenames' (AddRelation m a b))).
Proof.
  assert (forall fs (m' : MetaFile), (forall k, is_Some (m' !! k) -> In k fs) ->
            forall f to, In (f, to) (allConnections fs m') <->
                         relatedOf m' f = to /\ to <> []) as Hgen.
  { intros fs m' Hk f to. unfold allConnections. rewrite allConnections_fold. simpl.
    split; [intros [[]|(_ & ? & ? & _)]; done|].
    intros [H1 H2]. right. assert (is_Some (m' !! f)) as Hs.
    { unfold relatedOf in H1. destruct (m' !! f); [eauto | congruence]. }
    split; [by apply Hk | done]. }
  split; [by apply Hgen|].
  intros a b Ha Hb fs Hfs.
  assert (forall k, is_Some (AddRelation m a b !! k) -> In k fs) as Hfs'.
  { intros k Hk. apply Hfs. by apply AddRelation_is_Some in Hk. }
  split; apply Hgen; try done; (split; [done|]); intros Hnil.
  - assert (b ∈ relatedOf (AddRelation m a b) a) as Hin
      by (apply elem_of_relatedOf_AddRelation; tauto).
    rewrite Hnil in Hin. inversion Hin.
  - assert (a ∈ relatedOf (AddRelation m a b) b) as Hin
      by (apply elem_of_relatedOf_AddRelation; tauto).
    rewrite Hnil in Hin. inversion Hin.
Qed.

(** [allConnections_spec] on [chainGraph]. *)
Lemma allConnections_spec_witness :
  In ("B", ["A"; "C"]) (allConnections ["C"; "A"; "B"] chainGraph).
Proof.
  refine (proj2 (proj1 (allConnections_spec ["C"; "A"; "B"] chainGraph _) "B" ["A"; "C"]) _).
  - intros k. unfold chainGraph.
    rewrite <- elem_of_dom, !dom_insert_L, dom_singleton_L.
    rewrite !elem_of_union, !elem_of_singleton. simpl. intuition.
  - split; [reflexivity | discriminate].
Defined.

Section TreeEdges.

Variables (dir : NotesDir) (m : MetaFile).

Lemma buildChildren_names (P : graphNode -> Prop) step related w :
  (forall rel w, nodeName (fst (step rel w)) = rel /\ P (fst (step rel w))) ->
  map nodeName (fst (buildChildren step related w)) = related /\
  fold_right and True (map P (fst (buildChildren step related w))).
Proof.
  intros Hstep. revert w. induction related as [|rel rest IH]; intros w; simpl; [done|].
  specialize (Hstep rel w). destruct (step rel w) as [child w1].
  specialize (IH w1). destruct (buildChildren step rest w1) as [children w2].
  simpl in *. destruct Hstep as [-> HP], IH as [-> HPs]. done.
Qed.

Lemma buildGraph_followsIndex n f w :
  nodeName (fst (buildGraph dir m n f w)) = f /\
  followsIndex m (fst (buildGraph dir m n f w)).
Proof.
  revert f w. induction n as [|n IH]; intros f w; simpl.
  - split; [done|]. split; [by left | done].
  - case_decide; simpl; [split; [done|]; split; [by left | done]|].
    unfold relatedOf. destruct (m !! f) as [fileMeta|] eqn:E; simpl.
    + pose proof (buildChildren_names (followsIndex m) (buildGraph dir m n)
                    (FileMeta.Related fileMeta) (mark f w) IH) as [Hn Hc].
      destruct (buildChildren _ _ _) as [children w2]. simpl in *.
      split; [done|]. split; [|done]. right. unfold relatedOf. by rewrite E.
    + split; [done|]. split; [by left | done].
Qed.

Lemma printLoop_names expand related prefix w :
  map lineName (fst (printLoop dir m expand related prefix w)) = related.
Proof.
  revert w. induction related as [|rel rest IH]; intros w; [done|].
  cbn [printLoop].
  destruct (expand rel _ w) as [below w1].
  specialize (IH w1). destruct (printLoop dir m expand rest prefix w1) as [lines w2].
  simpl in *. by rewrite IH.
Qed.

Lemma printTree_names n related prefix w :
  map lineName (fst (printTree dir m n related prefix w)) = related.
Proof. destruct n; apply printLoop_names. Qed.

Lemma printLoop_Forall (P : treeLine -> Prop) expand related prefix w :
  (forall rel connector summary childPrefix w,
     P (TreeLine prefix connector rel summary (fst (expand rel childPrefix w)))) ->
  fold_right and True (map P (fst (printLoop dir m expand related prefix w))).
Proof.
  intros Hexp. revert w. induction related as [|rel rest IH]; intros w; [done|].
  cbn [printLoop].
  set (cp := if match rest with [] => true | _ => false end
             then (prefix ++ "    ")%string else (prefix ++ "│   ")%string).
  pose proof (Hexp rel (if match rest with [] => true | _ => false end
                        then "└── " else "├── ")
                (getSummary dir m rel) cp w) as Hl.
  destruct (expand rel cp w) as [below w1].
  specialize (IH w1).
  destruct (printLoop dir m expand rest prefix w1) as [lines w2].
  simpl in *. done.
Qed.

Lemma printTree_followsIndex n related prefix w :
  fold_right and True
    (map (linesFollowIndex m) (fst (printTree dir m n related prefix w))).
Proof.
  revert related prefix w. induction n as [|n IH]; intros related prefix w; simpl.
  - apply printLoop_Forall. intros. simpl. split; [|done]. intros x Hx. inversion Hx.
  - apply printLoop_Forall. intros rel connector summary cp w'.
    assert (linesFollowIndex m (TreeLine prefix connector rel summary [])) as Hleaf.
    { simpl. split; [|done]. intros x Hx. inversion Hx. }
    case_decide; [done|].
    destruct (m !! rel) as [fileMeta|] eqn:E; [|done].
    destruct (FileMeta.Related fileMeta) as [|r0 rs] eqn:Er; [done|].
    destruct (filter _ (r0 :: rs)) as [|u us] eqn:Ef; [done|].
    split; [|apply IH]. rewrite printTree_names.
    intros x Hx. rewrite <- Ef in Hx. apply list_elem_of_filter in Hx as [_ Hx].
    unfold relatedOf. by rewrite E, Er.
Qed.

End TreeEdges.

(** X14. The JSON tree shows the requested note at its root and only
    relations of the index: every node is a leaf or has exactly the related
    list of its note as its children, in the order of the index. *)
Theorem neighborhoodJSON_followsIndex (dir : NotesDir) (m : MetaFile)
    (filename : string) (depth : Z) :
  nodeName (fst (neighborhoodJSON dir m filename depth)) = filename /\
  followsIndex m (fst (neighborhoodJSON dir m filename depth)).
Proof. apply buildGraph_followsIndex. Qed.

(** X15. Whatever the depth, the text tree lists below the root exactly the
    root's related notes, in the order of the index, and every nested line
    names a related note of the line above it; for a depth of 1 or less,
    the least [int] excluded, no line has lines nested below it.  (At the
    least [int] the [depth - 1] of the source wraps around and the tree is
    printed in full: [neighborhoodText_least_int].) *)
Theorem neighborhoodText_followsIndex (dir : NotesDir) (m : MetaFile)
    (filename : string) (depth : Z) :
  let lines := fst (neighborhoodText dir m filename depth) in
  map lineName lines = relatedOf m filename /\
  fold_right and True (map (linesFollowIndex m) lines) /\
  (minInt < depth <= 1 ->
     fold_right and True (map (fun l => lineBelow l = []) lines)).
Proof.
  intros lines. subst lines. unfold neighborhoodText, relatedOf.
  destruct (m !! filename) as [fileMeta|]; [|done].
  split; [apply printTree_names|]. split; [apply printTree_followsIndex|].
  intros Hd. rewrite wrapInt_small by (unfold minInt, maxInt in *; lia).
  assert (Z.to_nat (depth - 1) = 0%nat) as -> by lia.
  simpl. by apply printLoop_Forall.
Qed.

(** [neighborhoodText_followsIndex] on [chainGraph] at depth 0. *)
Lemma neighborhoodText_followsIndex_witness :
  fold_right and True
    (map (fun l => lineBelow l = []) (fst (neighborhoodText exampleDir chainGraph "A" 0))).
Proof.
  apply (proj2 (proj2 (neighborhoodText_followsIndex exampleDir chainGraph "A" 0))).
  unfold minInt. lia.
Defined.

(** ** More on the codec *)

Section CodecMore.

#[local] Arguments String.append !s1 s2 : simpl nomatch.

Context `{Env}.

(** Reading back a serialization whose header lines hold no line feed. *)
Lemma Parse_ToMarkdown (filename : string) (n : Note.t) :
  Forall (fun x => noLF x = true) (Frontmatter.Tags (Note.Frontmatter n)) ->
  Forall (fun x => noLF x = true) (Frontmatter.Related (Note.Frontmatter n)) ->
  (Frontmatter.Summary (Note.Frontmatter n) = EmptyString \/
   noLF (Quote (Frontmatter.Summary (Note.Frontmatter n))) = true) ->
  ParseNoteContent filename (ToMarkdown n)
  = match Unmarshal (headerText (Note.Frontmatter n)) with
    | Some fm => Parsed (Note.mk filename fm (Note.Content n))
    | None => ParseError
    end.
Proof.
  intros Htags Hrel Hsum.
  rewrite ToMarkdown_eq. apply Parse_split. unfold headerText.
  eapply (Index_four_lines _ _ _ _ _ "t"%char "s"%char "r"%char); try reflexivity.
  - rewrite noLF_app. by rewrite formatNoteTime_noLF.
  - rewrite !noLF_app. by rewrite writeItems_noLF.
  - rewrite noLF_app. destruct Hsum as [-> | Hq]; [reflexivity|].
    destruct (String.eqb _ _); [reflexivity|]. by rewrite Hq.
  - rewrite !noLF_app. by rewrite writeItems_noLF.
Qed.

End CodecMore.

(** X16. A note parsed without error carries the file name given.  Either
    the text has no header (no opening marker line, or no closing marker),
    and the note has the zero header and the whole text as its body; or the
    note's header is what the decoder read from the text between the
    opening marker line and the first closing marker line (or a closing
    marker that ends the text, when there is no such line), and its body is
    everything after that marker. *)
Theorem ParseNoteContent_parts `{Env} (filename data : string) (n : Note.t)
  (Hparsed : ParseNoteContent filename data = Parsed n) :
  Note.Filename n = filename /\
  ((Note.Frontmatter n = Frontmatter.zero /\ Note.Content n = data /\
    forall text body, ~ splitsAt data text body) \/
   exists text,
     splitsAt data text (Note.Content n) /\
     Unmarshal text = Some (Note.Frontmatter n)).
Proof.
  destruct (ParseNoteContent_spec filename data) as [(text & body & Hs & E)|[Hno E]];
    rewrite E in Hparsed.
  - destruct (Unmarshal text) as [fm|] eqn:Eu; [|discriminate].
    injection Hparsed as <-. split; [done|]. right. by exists text.
  - injection Hparsed as <-. split; [done|]. by left.
Qed.

(** [ParseNoteContent_parts] in [exampleEnv], on the zero header and a body. *)
Lemma ParseNoteContent_parts_witness :
  Note.Filename (Note.mk "test.md" Frontmatter.zero "Body") = "test.md".
Proof.
  refine (proj1 (ParseNoteContent_parts (H := exampleEnv) "test.md"
                   (("---" ++ nl) ++ zeroHeader ++ (nl ++ "---" ++ nl) ++ "Body")
                   (Note.mk "test.md" Frontmatter.zero "Body") _)).
  vm_compute. reflexivity.
Defined.

(** X17. Reading back the file [CmdNew] saves never falls back to "no
    frontmatter": the decoder gets the canonical header, and unless it
    fails the body read is the body saved; [CmdShow] then prints the
    arguments joined by spaces and a line feed, or nothing when the note
    was saved for the editor. *)
Theorem CmdNew_then_CmdShow `{Env} (filename path : string) (now : Time) (args : list string) :
  let note := newNote filename now args in
  ParseNoteContent path (ToMarkdown note)
  = match Unmarshal (headerText (Note.Frontmatter note)) with
    | Some fm => Parsed (Note.mk path fm (Note.Content note))
    | None => ParseError
    end /\
  showContent (Note.Content note)
  = match args with
    | [] => EmptyString
    | _ :: _ => (Join args " " ++ nl)%string
    end.
Proof.
  intros note. split.
  - apply Parse_ToMarkdown; simpl; [constructor | constructor | by left].
  - subst note. by destruct args.
Qed.

Example CmdNew_example :
  ToMarkdown (H := exampleEnv) (newNote "n.md" (mkTime 2025 1 11 14 23 45 0) ["buy"; "milk"])
  = ("---" ++ nl ++ "created: 2025-01-11 14:23" ++ nl ++ "tags: []" ++ nl ++
     "summary: " ++ String DQ (String DQ nl) ++ "related: []" ++ nl ++ "---" ++ nl ++
     nl ++ "buy milk" ++ nl)%string.
Proof. vm_compute. reflexivity. Qed.

(** ** [CmdUpdate]: the reverse relations *)

Section UpdateRelations.

Variable contains : list string -> string -> bool.
Variable removeString : list string -> string -> list string.
Hypothesis contains_spec : forall l x, contains l x = true <-> x ∈ l.
Hypothesis removeString_spec : forall l x y, y ∈ removeString l x <-> y ∈ l /\ y <> x.

Variables (filename : string) (prevRelated newRelated : list string).

Lemma contains_false l x : contains l x = false <-> x ∉ l.
Proof. rewrite <- contains_spec. destruct (contains l x); split; congruence. Qed.

Lemma dropReverse_step (m : MetaFile) (oldRel k y : string) :
  (is_Some (dropReverse contains removeString filename newRelated m oldRel !! k)
     <-> is_Some (m !! k)) /\
  (y ∈ relatedOf (dropReverse contains removeString filename newRelated m oldRel) k <->
     y ∈ relatedOf m k /\ ~ (k = oldRel /\ (oldRel ∉ newRelated) /\ y = filename)) /\
  (k <> oldRel \/ oldRel ∈ newRelated ->
     dropReverse contains removeString filename newRelated m oldRel !! k = m !! k).
Proof.
  unfold dropReverse, relatedOf.
  destruct (contains newRelated oldRel) eqn:Ec; cbn [negb].
  - apply contains_spec in Ec. tauto.
  - apply contains_false in Ec. destruct (m !! oldRel) as [e|] eqn:E.
    + destruct (decide (k = oldRel)) as [->|Hne].
      * rewrite lookup_insert_eq, E. simpl. rewrite removeString_spec.
        split; [split; eauto|]. split; [tauto|]. intros [?|?]; done.
      * rewrite lookup_insert_ne by done. tauto.
    + destruct (decide (k = oldRel)) as [->|Hne]; [|tauto].
      rewrite E. split; [done|]. split; [|done].
      split; [intros Hy; inversion Hy | tauto].
Qed.

Lemma addReverse_step (m : MetaFile) (newRel k y : string) :
  (is_Some (addReverse contains filename prevRelated m newRel !! k)
     <-> is_Some (m !! k)) /\
  (y ∈ relatedOf (addReverse contains filename prevRelated m newRel) k <->
     y ∈ relatedOf m k \/
     (k = newRel /\ (newRel ∉ prevRelated) /\ is_Some (m !! k) /\ y = filename)) /\
  (k <> newRel \/ newRel ∈ prevRelated ->
     addReverse contains filename prevRelated m newRel !! k = m !! k).
Proof.
  unfold addReverse, relatedOf.
  destruct (contains prevRelated newRel) eqn:Ec; cbn [negb].
  - apply contains_spec in Ec. split; [done|]. split; [tauto | done].
  - apply contains_false in Ec. destruct (m !! newRel) as [e|] eqn:E.
    + destruct (contains (FileMeta.Related e) filename) eqn:Ef; cbn [negb].
      * apply contains_spec in Ef. split; [done|]. split; [|done].
        split; [tauto|]. intros [?|(-> & _ & _ & ->)]; [done|]. by rewrite E.
      * destruct (decide (k = newRel)) as [->|Hne].
        -- rewrite lookup_insert_eq, E. simpl. rewrite elem_of_app, list_elem_of_singleton.
           split; [split; eauto|]. split; [|intros [?|?]; done].
           split; [intros [?| ->]; eauto 6 | tauto].
        -- rewrite lookup_insert_ne by done. tauto.
    + split; [done|]. split; [|done]. split; [tauto|].
      intros [?|(-> & _ & [e He] & _)]; [done | congruence].
Qed.

Lemma dropReverse_fold (l : list string) (m : MetaFile) (k y : string) :
  let m' := fold_left (dropReverse contains removeString filename newRelated) l m in
  (is_Some (m' !! k) <-> is_Some (m !! k)) /\
  (y ∈ relatedOf m' k <->
     y ∈ relatedOf m k /\ ~ (k ∈ l /\ (k ∉ newRelated) /\ y = filename)) /\
  (k ∉ l \/ k ∈ newRelated -> m' !! k = m !! k).
Proof.
  revert m. induction l as [|r l IH]; intros m; cbn [fold_left].
  - split; [done|]. split; [|done]. rewrite elem_of_nil. tauto.
  - destruct (IH (dropReverse contains removeString filename newRelated m r))
      as (I1 & I2 & I3).
    destruct (dropReverse_step m r k y) as (S1 & S2 & S3).
    cbv zeta in *. rewrite I1, I2, S1, S2, elem_of_cons.
    split; [done|]. split.
    + split.
      * intros ((Hy & Hn1) & Hn2). split; [done|].
        intros ([->|Hl] & Hk & ->); [apply Hn1 | apply Hn2]; done.
      * intros (Hy & Hn). split; [split; [done|]|].
        -- intros (-> & Hk & ->). apply Hn. split; [by left | done].
        -- intros (Hl & Hk & ->). apply Hn. split; [by right | done].
    + intros Hk. rewrite I3; [apply S3|].
      * destruct Hk as [Hk|Hk].
        -- left. intros ->. apply Hk. by left.
        -- destruct (decide (k = r)) as [->|Hne]; [by right | by left].
      * destruct Hk as [Hk|Hk]; [left | by right].
        intros Hl. apply Hk. by right.
Qed.

Lemma addReverse_fold (l : list string) (m : MetaFile) (k y : string) :
  let m' := fold_left (addReverse contains filename prevRelated) l m in
  (is_Some (m' !! k) <-> is_Some (m !! k)) /\
  (y ∈ relatedOf m' k <->
     y ∈ relatedOf m k \/
     (k ∈ l /\ (k ∉ prevRelated) /\ is_Some (m !! k) /\ y = filename)) /\
  (k ∉ l \/ k ∈ prevRelated -> m' !! k = m !! k).
Proof.
  revert m. induction l as [|r l IH]; intros m; cbn [fold_left].
  - split; [done|]. split; [|done]. rewrite elem_of_nil. tauto.
  - destruct (IH (addReverse contains filename prevRelated m r)) as (I1 & I2 & I3).
    destruct (addReverse_step m r k y) as (S1 & S2 & S3).
    cbv zeta in *. rewrite I1, I2, S1, S2, elem_of_cons.
    split; [done|]. split.
    + split.
      * intros [[?|(-> & ? & ? & ->)]|(? & ? & ? & ->)];
          [by left | right | right]; (split; [by (left + right)|done]).
      * intros [?|([->|?] & ? & ? & ->)]; [by left; left | left; right | right]; done.
    + intros Hk. rewrite I3; [apply S3|].
      * destruct Hk as [Hk|Hk].
        -- left. intros ->. apply Hk. by left.
        -- destruct (decide (k = r)) as [->|Hne]; [by right | by left].
      * destruct Hk as [Hk|Hk]; [left | by right].
        intros Hl. apply Hk. by right.
Qed.

(** X18. The relation update of [CmdUpdate], on the index: every note newly
    named as related that has an entry lists the updated note afterwards,
    every note no longer named does not, no entry is created or deleted, no
    list gains or loses any other name, and the entries of notes neither
    added nor dropped are untouched. *)
Theorem updateRelations_reverse (m : MetaFile) :
  let m' := updateRelations contains removeString filename prevRelated newRelated m in
  (forall r, r ∈ newRelated -> r ∉ prevRelated -> is_Some (m !! r) ->
     filename ∈ relatedOf m' r) /\
  (forall r, r ∈ prevRelated -> r ∉ newRelated -> filename ∉ relatedOf m' r) /\
  (forall k, is_Some (m' !! k) <-> is_Some (m !! k)) /\
  (forall k y, y <> filename -> (y ∈ relatedOf m' k <-> y ∈ relatedOf m k)) /\
  (forall k, (k ∉ prevRelated \/ k ∈ newRelated) -> (k ∉ newRelated \/ k ∈ prevRelated) ->
     m' !! k = m !! k).
Proof.
  intros m'. subst m'. unfold updateRelations.
  set (m1 := fold_left (dropReverse contains removeString filename newRelated) prevRelated m).
  assert (forall k y,
    (is_Some (fold_left (addReverse contains filename prevRelated) newRelated m1 !! k)
       <-> is_Some (m !! k)) /\
    (y ∈ relatedOf (fold_left (addReverse contains filename prevRelated) newRelated m1) k <->
       (y ∈ relatedOf m k /\ ~ (k ∈ prevRelated /\ (k ∉ newRelated) /\ y = filename)) \/
       (k ∈ newRelated /\ (k ∉ prevRelated) /\ is_Some (m !! k) /\ y = filename))) as Hchar.
  { intros k y.
    destruct (addReverse_fold newRelated m1 k y) as (A1 & A2 & _).
    destruct (dropReverse_fold prevRelated m k y) as (D1 & D2 & _).
    cbv zeta in *. fold m1 in D1, D2. rewrite A1, A2, D1, D2. done. }
  split; [|split; [|split; [|split]]].
  - intros r Hn Hp Hs. apply Hchar. right. done.
  - intros r Hp Hn Hin. apply Hchar in Hin as [[_ Hc]|(? & ? & _)]; [|done].
    apply Hc. done.
  - intros k. apply (Hchar k filename).
  - intros k y Hy. rewrite (proj2 (Hchar k y)). split.
    + intros [[? _]|(_ & _ & _ & ?)]; done.
    + intros Hin. left. split; [done|]. intros (_ & _ & ?). done.
  - intros k Hk1 Hk2.
    destruct (addReverse_fold newRelated m1 k filename) as (_ & _ & A3).
    destruct (dropReverse_fold prevRelated m k filename) as (_ & _ & D3).
    cbv zeta in *. fold m1 in D3. by rewrite A3, D3.
Qed.

End UpdateRelations.

(** [updateRelations_reverse] with [Contains] and [RemoveString] for the
    helpers: [a.md], related to nothing before, is updated to name [b.md]. *)
Lemma updateRelations_reverse_witness :
  "a.md" ∈ relatedOf
             (updateRelations Contains RemoveString "a.md" [] ["b.md"] testRelations) "b.md".
Proof.
  refine (proj1 (updateRelations_reverse Contains RemoveString Contains_elem_of
                   (fun l x y => elem_of_RemoveString l x y) "a.md" [] ["b.md"]
                   testRelations) "b.md" _ _ _).
  - by left.
  - inversion 1.
  - by eexists.
Defined.

Example updateRelations_example :
  let m := updateRelations Contains RemoveString "a.md" ["b.md"] ["c.md"]
             {[ "a.md" := entry ["c.md"]; "b.md" := entry ["a.md"; "x.md"];
                "c.md" := entry [] ]} in
  relatedOf m "b.md" = ["x.md"] /\ relatedOf m "c.md" = ["a.md"].
Proof. vm_compute. auto. Qed.

(** ** [CmdTags]: counting *)

Section CountTags.

Variable ToLower : string -> string.

Lemma countTags_inner (tags seen : list string) (tagCounts : gmap string nat) :
  (forall k, tagCounts !! k = countsOf ToLower seen k) ->
  forall k,
    fold_left
      (fun (tagCounts : gmap string nat) tag =>
         <[ToLower tag := S (default 0%nat (tagCounts !! ToLower tag))]> tagCounts)
      tags tagCounts !! k
    = countsOf ToLower (seen ++ tags) k.
Proof.
  revert seen tagCounts. induction tags as [|t tags IH]; intros seen tagCounts Hinv k.
  - rewrite app_nil_r. apply Hinv.
  - cbn [fold_left]. rewrite (IH (seen ++ [t])%list).
    + by rewrite <- app_assoc.
    + intros k'. unfold countsOf. rewrite map_app, count_occ_app. simpl.
      destruct (string_dec (ToLower t) k') as [<-|Hne].
      * rewrite lookup_insert_eq, Hinv. unfold countsOf.
        destruct (count_occ string_dec (map ToLower seen) (ToLower t)) as [|c]; simpl.
        -- done.
        -- f_equal. lia.
      * rewrite lookup_insert_ne by done. rewrite Hinv. unfold countsOf.
        by rewrite Nat.add_0_r.
Qed.

Lemma countTags_outer (notes : list Note.t) (seen : list string)
    (tagCounts : gmap string nat) :
  (forall k, tagCounts !! k = countsOf ToLower seen k) ->
  forall k,
    fold_left
      (fun tagCounts note =>
         fold_left
           (fun (tagCounts : gmap string nat) tag =>
              <[ToLower tag := S (default 0%nat (tagCounts !! ToLower tag))]> tagCounts)
           (Frontmatter.Tags (Note.Frontmatter note)) tagCounts)
      notes tagCounts !! k
    = countsOf ToLower (seen ++ flat_map (fun n => Frontmatter.Tags (Note.Frontmatter n)) notes) k.
Proof.
  revert seen tagCounts. induction notes as [|n notes IH]; intros seen tagCounts Hinv k.
  - simpl. rewrite app_nil_r. apply Hinv.
  - cbn [fold_left flat_map]. rewrite app_assoc. apply IH.
    intros k'. by apply countTags_inner.
Qed.

(** X19. After the counting loop of [CmdTags], a key of [tagCounts] maps to
    the number of tags, over all the notes and with repetitions, whose
    lower-case form is the key; a string that is the lower-case form of no
    tag is not a key, so the map is empty exactly when no note has a tag. *)
Theorem countTags_spec (notes : list Note.t) :
  let tags := flat_map (fun n => Frontmatter.Tags (Note.Frontmatter n)) notes in
  (forall k, countTags ToLower notes !! k
             = match count_occ string_dec (map ToLower tags) k with
               | O => None
               | S c => Some (S c)
               end) /\
  (countTags ToLower notes = ∅ <-> tags = []).
Proof.
  intros tags.
  assert (forall k, countTags ToLower notes !! k = countsOf ToLower tags k) as Hk.
  { intros k. unfold countTags. by rewrite (countTags_outer notes []). }
  split; [exact Hk|]. split.
  - intros He. destruct tags as [|t ts] eqn:Et; [done|]. exfalso.
    specialize (Hk (ToLower t)). rewrite He, lookup_empty in Hk.
    unfold countsOf in Hk. simpl in Hk.
    destruct (string_dec (ToLower t) (ToLower t)); [discriminate | done].
  - intros Et. apply map_eq. intros k. rewrite Hk, Et, lookup_empty. done.
Qed.

End CountTags.

Example countTags_example :
  let notes := [ testNote ["go"; "rocq"] EmptyString EmptyString;
                 testNote ["rocq"; "rocq"] EmptyString EmptyString ] in
  countTags (fun s => s) notes !! "rocq" = Some 3%nat /\
  countTags (fun s => s) notes !! "go" = Some 1%nat /\
  countTags (fun s => s) notes !! "ml" = None.
Proof. vm_compute. auto. Qed.

(** ** [parseCSV] *)

Section ParseCSV.

#[local] Arguments String.append !s1 s2 : simpl nomatch.

Variable TrimSpace : string -> string.

Lemma splitComma_nonempty (s : string) : splitComma s <> [].
Proof.
  destruct s as [|c s]; simpl; [done|].
  destruct (Ascii.eqb c ","); [done|]. by destruct (splitComma s).
Qed.

Lemma Join_cons (x : string) (rest : list string) (sep : string) :
  rest <> [] -> Join (x :: rest) sep = (x ++ sep ++ Join rest sep)%string.
Proof. by destruct rest. Qed.

Lemma Join_splitComma (s : string) : Join (splitComma s) "," = s.
Proof.
  induction s as [|c s IH]; [done|]. cbn [splitComma].
  destruct (Ascii.eqb_spec c ",") as [->|Hne].
  - rewrite Join_cons by apply splitComma_nonempty. by rewrite IH.
  - pose proof (splitComma_nonempty s) as Hn.
    destruct (splitComma s) as [|p ps]; [done|].
    destruct ps as [|q qs]; simpl in *; by rewrite <- IH.
Qed.

Lemma splitComma_no_comma (s piece : string) :
  In piece (splitComma s) ->
  allChars (fun c => negb (Ascii.eqb c ",")) piece = true.
Proof.
  revert piece. induction s as [|c s IH]; intros piece; cbn [splitComma].
  - intros [<-|[]]. done.
  - destruct (Ascii.eqb c ",") eqn:Ec.
    + intros [<-|Hin]; [done | by apply IH].
    + pose proof (splitComma_nonempty s) as Hn.
      destruct (splitComma s) as [|p ps]; [done|].
      intros [<-|Hin].
      * simpl. rewrite Ec. simpl. apply IH. by left.
      * apply IH. by right.
Qed.

Lemma parseCSV_fold (pieces result : list string) :
  fold_left
    (fun result p =>
       let p := TrimSpace p in
       if negb (String.eqb p EmptyString) then (result ++ [p])%list else result)
    pieces result
  = (result ++ List.filter (fun p => negb (String.eqb p EmptyString))
                 (map TrimSpace pieces))%list.
Proof.
  revert result. induction pieces as [|p ps IH]; intros result; simpl.
  - by rewrite app_nil_r.
  - rewrite IH. destruct (negb (String.eqb (TrimSpace p) EmptyString)); simpl.
    + by rewrite <- app_assoc.
    + done.
Qed.

(** X20. [parseCSV] of the empty string is empty; otherwise its entries
    are, in order, the trimmed pieces between the commas that are not
    empty after trimming.  No entry is empty, and the pieces hold no comma
    and give the string back when joined by commas. *)
Theorem parseCSV_spec (s : string) :
  parseCSV TrimSpace EmptyString = [] /\
  (s <> EmptyString ->
     parseCSV TrimSpace s
     = List.filter (fun p => negb (String.eqb p EmptyString))
         (map TrimSpace (splitComma s))) /\
  (forall x, In x (parseCSV TrimSpace s) -> x <> EmptyString) /\
  Join (splitComma s) "," = s /\
  (forall piece, In piece (splitComma s) ->
     allChars (fun c => negb (Ascii.eqb c ",")) piece = true).
Proof.
  split; [done|].
  assert (s <> EmptyString ->
     parseCSV TrimSpace s
     = List.filter (fun p => negb (String.eqb p EmptyString))
         (map TrimSpace (splitComma s))) as Hf.
  { intros Hs. unfold parseCSV. apply String.eqb_neq in Hs. rewrite Hs.
    by rewrite parseCSV_fold. }
  split; [exact Hf|]. split; [|split; [apply Join_splitComma | apply splitComma_no_comma]].
  intros x Hx. destruct (String.eqb_spec s EmptyString) as [->|Hs]; [done|].
  rewrite (Hf Hs) in Hx. apply filter_In in Hx as [_ Hx].
  apply negb_true_iff in Hx. by apply String.eqb_neq.
Qed.

End ParseCSV.

(** [parseCSV_spec] with the identity for [TrimSpace]. *)
Lemma parseCSV_spec_witness :
  parseCSV (fun p => p) "a,,b" = ["a"; "b"].
Proof.
  refine (proj1 (proj2 (parseCSV_spec (fun p => p) "a,,b")) _). discriminate.
Defined.

(** ** [CmdSync], then [CmdDiff] *)

Section SyncThenDiff.

Variable ParseNote : string -> option Note.t.

Lemma syncLoop_dryRun (entries : list DirEntry.t) (m : MetaFile) :
  syncLoop ParseNote true entries m = m.
Proof.
  unfold syncLoop. induction entries as [|entry rest IH]; cbn [fold_left]; [done|].
  destruct (skipped entry); [exact IH|].
  destruct (ParseNote (DirEntry.Name entry)); exact IH.
Qed.

Lemma syncLoop_hash (entries : list DirEntry.t) (m : MetaFile) (k : string) (note : Note.t) :
  ParseNote k = Some note ->
  readsAs ParseNote entries k note \/ FileMeta.ContentHash <$> (m !! k) = Some (ContentHash note) ->
  FileMeta.ContentHash <$> (syncLoop ParseNote false entries m !! k)
  = Some (ContentHash note).
Proof.
  intros Hk. unfold syncLoop. revert m.
  induction entries as [|entry rest IH]; intros m Hm; cbn [fold_left].
  - destruct Hm as [(entry & [] & _)|Hm]. exact Hm.
  - apply IH. destruct Hm as [(entry' & [<-|Hin] & Hs & Hn & _)|Hm].
    + right. rewrite Hs, Hn, Hk. unfold syncNote. cbn [negb snd].
      by rewrite lookup_insert_eq.
    + left. exists entry'. done.
    + right. destruct (skipped entry); [done|].
      destruct (ParseNote (DirEntry.Name entry)) as [note'|] eqn:E; [|done].
      unfold syncNote. cbn [negb snd].
      destruct (decide (DirEntry.Name entry = k)) as [Hn|Hn].
      * rewrite Hn in *. rewrite lookup_insert_eq. cbn [fmap option_fmap option_map
          FileMeta.ContentHash]. congruence.
      * by rewrite lookup_insert_ne.
Qed.

Lemma syncLoop_is_Some (entries : list DirEntry.t) (m : MetaFile) (k : string) :
  is_Some (syncLoop ParseNote false entries m !! k) <->
  is_Some (m !! k) \/ exists note, readsAs ParseNote entries k note.
Proof.
  unfold syncLoop. revert m.
  induction entries as [|entry rest IH]; intros m; cbn [fold_left].
  - split; [by left | intros [?|(note & entry & [] & _)]; done].
  - rewrite IH. clear IH. split.
    + intros [Hs|(note & entry' & Hin & Hr)].
      * destruct (skipped entry) eqn:Es; [by left|].
        destruct (ParseNote (DirEntry.Name entry)) as [note|] eqn:E; [|by left].
        unfold syncNote in Hs. cbn [negb snd] in Hs.
        destruct (decide (DirEntry.Name entry = k)) as [Hn|Hn].
        -- right. exists note, entry. rewrite <- Hn. split; [by left | done].
        -- rewrite lookup_insert_ne in Hs by done. by left.
      * right. exists note, entry'. split; [by right | done].
    + intros [Hs|(note & entry' & [<-|Hin] & Hsk & Hn & Hp)].
      * left. destruct (skipped entry); [done|].
        destruct (ParseNote (DirEntry.Name entry)); [|done].
        unfold syncNote. cbn [negb snd].
        destruct (decide (DirEntry.Name entry = k)) as [Hn|Hn].
        -- rewrite Hn, lookup_insert_eq. by eexists.
        -- by rewrite lookup_insert_ne.
      * left. rewrite Hsk, Hn, Hp. unfold syncNote. cbn [negb snd].
        rewrite lookup_insert_eq. by eexists.
      * right. exists note, entry'. done.
Qed.

Lemma nothing_to_enrich (entries : list DirEntry.t) (m : MetaFile) :
  (forall k note, readsAs ParseNote entries k note ->
     NeedsEnrichment m k (ContentHash note) = false) ->
  GetNotesNeedingEnrichment ParseNote entries m = [] /\
  CmdDiff ParseNote entries m = [].
Proof.
  unfold GetNotesNeedingEnrichment, CmdDiff.
  generalize (@nil Note.t) (@nil string).
  induction entries as [|entry rest IH]; intros l1 l2 Hall; cbn [fold_left]; [done|].
  assert (forall k note, readsAs ParseNote rest k note ->
            NeedsEnrichment m k (ContentHash note) = false) as Hrest.
  { intros k note (entry' & Hin & Hr). apply Hall. exists entry'. split; [by right | done]. }
  destruct (skipped entry) eqn:Es; [by apply IH|].
  destruct (ParseNote (DirEntry.Name entry)) as [note|] eqn:E; [|by apply IH].
  rewrite (Hall (DirEntry.Name entry) note); [by apply IH|].
  exists entry. split; [by left | done].
Qed.

(** X21. A sync that is not a dry run settles the directory it has read:
    when the listed files exist, [GetNotesNeedingEnrichment] over the same
    listing then returns no note and [CmdDiff] prints no name, with or
    without [--force] and whatever the index held before.  The index then
    has an entry exactly for the existing files that it held before or
    that the sync has read as a note.  A dry run without [--force] ends
    with the index it loaded. *)
Theorem sync_then_diff (fileExists : string -> bool) (range : MetaFile -> list string)
    (force : bool) (entries : list DirEntry.t) (loaded : MetaFile)
    (Hfiles : forall entry, In entry entries -> fileExists (DirEntry.Name entry) = true) :
  let m' := CmdSync ParseNote fileExists range force false entries loaded in
  GetNotesNeedingEnrichment ParseNote entries m' = [] /\
  CmdDiff ParseNote entries m' = [] /\
  ((forall m k, is_Some (m !! k) -> k ∈ range m) ->
   forall k, is_Some (m' !! k) <->
     fileExists k = true /\
     (is_Some ((if force then ∅ else loaded) !! k) \/
      exists note, readsAs ParseNote entries k note)) /\
  CmdSync ParseNote fileExists range false true entries loaded = loaded.
Proof.
  intros m'. subst m'. unfold CmdSync. cbv zeta.
  set (start := if force then ∅ else loaded).
  assert (forall k note, readsAs ParseNote entries k note ->
            NeedsEnrichment
              (removeDeleted fileExists false
                 (range (syncLoop ParseNote false entries start))
                 (syncLoop ParseNote false entries start)) k (ContentHash note) = false)
    as Hall; [|destruct (nothing_to_enrich _ _ Hall) as [H1 H2];
               split; [exact H1|]; split; [exact H2|]; split].
  - intros k note (entry & Hin & Hs & Hn & Hp).
    unfold NeedsEnrichment. rewrite removeDeleted_lookup.
    case_decide as Hd.
    { destruct Hd as [_ Hd]. rewrite <- Hn, (Hfiles entry Hin) in Hd. discriminate. }
    pose proof (syncLoop_hash entries start k note Hp) as Hh.
    destruct (syncLoop ParseNote false entries start !! k) as [e|].
    + cbn [fmap option_fmap option_map] in Hh.
      assert (FileMeta.ContentHash e = ContentHash note) as ->.
      { assert (Some (FileMeta.ContentHash e) = Some (ContentHash note)) as [= ->]; [|done].
        apply Hh. left. exists entry. done. }
      by rewrite String.eqb_refl.
    + assert (@None string = Some (ContentHash note)) as Hno; [|discriminate].
      apply Hh. left. exists entry. done.
  - intros Hrange k. rewrite removeDeleted_lookup, <- syncLoop_is_Some.
    case_decide as Hd.
    + destruct Hd as [_ Hd]. rewrite Hd. split; [by intros [? ?] | by intros [? _]].
    + destruct (fileExists k) eqn:Ek; [tauto|]. split; [|by intros [? _]].
      intros Hs. exfalso. apply Hd. split; [by apply Hrange | done].
  - by rewrite syncLoop_dryRun, removeDeleted_dryRun.
Qed.

End SyncThenDiff.

(** [sync_then_diff] on a directory with one note and one other file, from
    the empty index. *)
Lemma sync_then_diff_witness :
  let ParseNote := fun filename : string =>
    if String.eqb filename "a.md" then Some (testNote [] EmptyString "body") else None in
  CmdDiff ParseNote [DirEntry.mk "a.md" false; DirEntry.mk "b.txt" false]
    (CmdSync ParseNote (fun _ => true) (fun _ => []) false false
       [DirEntry.mk "a.md" false; DirEntry.mk "b.txt" false] ∅) = [].
Proof.
  intros ParseNote.
  refine (proj1 (proj2 (sync_then_diff ParseNote (fun _ => true) (fun _ => []) false
                          [DirEntry.mk "a.md" false; DirEntry.mk "b.txt" false] ∅ _))).
  reflexivity.
Defined.
